(** * PySwizzle: a shallow embedding of [bot.py]

    The bot answers every @mention with a lyric: [load_lyrics] reads the
    corpus, [similarity] and [choose_lyric] pick a line, [handle_tweet]
    composes and sends the reply, and [TwitterInterface.__next__] feeds the
    loop while swallowing the transport's hangups.

    Modelling conventions.
    - A Python [str] is a [string]; its characters are the code points
      U+0000..U+00FF, one [ascii] each.  [isspace] and [lower_char] are
      Python's tables restricted to that range.
    - A Python [set] of strings is a [gset string]; iterating over it is
      iterating over [elements].
    - Exceptions are values of [exn]; a computation that may raise returns a
      [result].
    - Logging and [interface.tweet] are recorded as a list of [effect]s, in
      program order.
    - [random.choice] draws an index; the draw is the explicit argument [k]. *)

From Stdlib Require Import Ascii String List ZArith Lia Bool Arith.
From stdpp Require Import base decidable option list list_numbers sets fin_sets gmap strings pretty.

Local Open Scope string_scope.

(** ** Python string primitives *)

Module Py.

(** [str.isspace] for one character. *)
Definition isspace (c : ascii) : bool :=
  let n := nat_of_ascii c in
  (((9 <=? n) && (n <=? 13)) || ((28 <=? n) && (n <=? 32))
   || (n =? 133) || (n =? 160))%nat.

(** [str.lower] for one character. *)
Definition lower_char (c : ascii) : ascii :=
  let n := nat_of_ascii c in
  if (((65 <=? n) && (n <=? 90))
      || ((192 <=? n) && (n <=? 222) && negb (n =? 215)))%nat
  then ascii_of_nat (n + 32) else c.

(** [s.lower()] *)
Fixpoint lower (s : string) : string :=
  match s with
  | EmptyString => EmptyString
  | String c s' => String (lower_char c) (lower s')
  end.

(** [s.lstrip()] *)
Fixpoint lstrip (s : string) : string :=
  match s with
  | EmptyString => EmptyString
  | String c s' => if isspace c then lstrip s' else s
  end.

(** [s.rstrip()] *)
Fixpoint rstrip (s : string) : string :=
  match s with
  | EmptyString => EmptyString
  | String c s' =>
      match rstrip s' with
      | EmptyString => if isspace c then EmptyString else String c EmptyString
      | r => String c r
      end
  end.

(** [s.strip()] *)
Definition strip (s : string) : string := rstrip (lstrip s).

(** [s.split()]: maximal runs of non-whitespace characters.  [cur] is the
    word being read. *)
Fixpoint split_go (cur : string) (s : string) : list string :=
  match s with
  | EmptyString => match cur with EmptyString => [] | _ => [cur] end
  | String c s' =>
      if isspace c then
        match cur with
        | EmptyString => split_go EmptyString s'
        | _ => cur :: split_go EmptyString s'
        end
      else split_go (cur +:+ String c EmptyString) s'
  end.

Definition split (s : string) : list string := split_go EmptyString s.

(** [s.startswith(p)] *)
Fixpoint startswith (p s : string) : bool :=
  match p, s with
  | EmptyString, _ => true
  | String _ _, EmptyString => false
  | String a p', String b s' => if ascii_dec a b then startswith p' s' else false
  end.

(** [p in s] for strings: [p] occurs in [s] at some offset. *)
Fixpoint contains (p s : string) : bool :=
  startswith p s ||
  match s with
  | EmptyString => false
  | String _ s' => contains p s'
  end.

(** [s[:n]] for [n >= 0] *)
Fixpoint slice_to (n : nat) (s : string) : string :=
  match n, s with
  | O, _ => EmptyString
  | S _, EmptyString => EmptyString
  | S n', String c s' => String c (slice_to n' s')
  end.

(** [sep.join(l)] *)
Fixpoint join (sep : string) (l : list string) : string :=
  match l with
  | [] => EmptyString
  | [x] => x
  | x :: l' => x +:+ sep +:+ join sep l'
  end.

(** Iterating over a text file: each line keeps its newline; a last line
    without one is yielded as it is.  The content is the decoded text after
    newline translation, so the only terminator is U+000A. *)
Fixpoint iter_lines_go (cur : string) (s : string) : list string :=
  match s with
  | EmptyString => match cur with EmptyString => [] | _ => [cur] end
  | String c s' =>
      if ascii_dec c "010"%char
      then (cur +:+ String c EmptyString) :: iter_lines_go EmptyString s'
      else iter_lines_go (cur +:+ String c EmptyString) s'
  end.

Definition iter_lines (content : string) : list string :=
  iter_lines_go EmptyString content.

End Py.

(** ** Exceptions, results, effects *)

Inductive exn :=
  | TypeError | ValueError | IndexError
  | FileNotFoundError | StopIteration | ConnectionError
  | RecursionError.

Inductive result (A : Type) :=
  | Ok (a : A)
  | Raise (e : exn).
Arguments Ok {A} a.
Arguments Raise {A} e.

#[global] Instance result_ret : MRet result := fun A a => Ok a.
#[global] Instance result_bind : MBind result := fun A B f m =>
  match m with
  | Ok a => f a
  | Raise e => Raise e
  end.

Inductive level := DEBUG | INFO | WARNING.

(** What the bot does to the outside world: a record handed to the logger
    [log], or a call of [self.interface.tweet]. *)
Inductive effect :=
  | Log (lvl : level) (msg : string)
  | InterfaceTweet (msg : string) (reply_to : option Z).

(** ** Data *)

(** A user dict, as in [tweet['user']] and in
    [tweet['entities']['user_mentions']]. *)
Record User := { screen_name : string; user_id : Z }.

Record Entities := { user_mentions : list User }.

(** A tweet dict: the keys that [handle_tweet] reads. *)
Record Tweet := {
  id : Z;
  text : string;
  user : User;
  entities : Entities
}.

(** The bot; [None] is Python's [None] of [__init__]. *)
Record PySwizzle := {
  username : string;
  lyrics : option (list string);
  lyrics_lower : option (list string)
}.

#[global] Instance User_eq_dec : EqDecision User.
Proof. solve_decision. Defined.

Definition newline : string := String "010"%char EmptyString.
Definition dquote : string := String "034"%char EmptyString.

(** ** PySwizzle.load_lyrics

    [fs] is the file system seen by [open]: the text of each file that
    exists. *)
Definition load_lyrics (self : PySwizzle) (fs : string -> option string)
    (filename : string) : result PySwizzle :=
  match fs filename with
  | None => Raise FileNotFoundError
  | Some content =>
      let lyrics_file := Py.iter_lines content in
      let lyrics' := Py.strip <$> filter (fun l => l <> newline) lyrics_file in
      Ok {| username := username self;
            lyrics := Some lyrics';
            lyrics_lower := Some (Py.lower <$> lyrics') |}
  end.

(** ** PySwizzle.similarity: [sum(piece in line for piece in pieces)] *)
Definition similarity (pieces : gset string) (line : string) : nat :=
  sum_list ((fun piece => Nat.b2n (Py.contains piece line)) <$> elements pieces).

(** ** PySwizzle.choose_lyric *)

Fixpoint enumerate_from {A} (i : nat) (l : list A) : list (nat * A) :=
  match l with
  | [] => []
  | x :: l' => (i, x) :: enumerate_from (S i) l'
  end.

Definition enumerate {A} (l : list A) : list (nat * A) := enumerate_from 0 l.

(** [seq[i]] on an attribute that may still be [None]. *)
Definition getitem (seq : option (list string)) (i : nat) : result string :=
  match seq with
  | None => Raise TypeError
  | Some l => match l !! i with Some x => Ok x | None => Raise IndexError end
  end.

(** [max(scores)] *)
Definition py_max (scores : list nat) : result nat :=
  match scores with
  | [] => Raise ValueError
  | _ => Ok (max_list scores)
  end.

(** [[self.lyrics[i] for i, score in enumerate(scores) if score == max_score]] *)
Fixpoint tied_lines (lyrics0 : option (list string)) (max_score : nat)
    (iscores : list (nat * nat)) : result (list string) :=
  match iscores with
  | [] => Ok []
  | (i, score) :: rest =>
      if decide (score = max_score) then
        line ← getitem lyrics0 i;
        lines ← tied_lines lyrics0 max_score rest;
        mret (line :: lines)
      else tied_lines lyrics0 max_score rest
  end.

(** [random.choice(seq)], with the drawn index [k] reduced to the range. *)
Definition random_choice {A} (k : nat) (seq : list A) : result A :=
  match seq !! (k mod length seq) with
  | Some x => Ok x
  | None => Raise IndexError
  end.

(** [set(text.lower().split())] *)
Definition pieces_of (text0 : string) : gset string :=
  list_to_set (Py.split (Py.lower text0)).

Definition choose_lyric (self : PySwizzle) (k : nat) (text0 : string)
    : list effect * result string :=
  let pieces := pieces_of text0 in
  match lyrics_lower self with
  | None => ([], Raise TypeError)
  | Some lower_lines =>
      let scores := similarity pieces <$> lower_lines in
      match py_max scores with
      | Raise e => ([], Raise e)
      | Ok max_score =>
          let logged := [Log INFO ("MAX SCORE: " +:+ pretty max_score)] in
          (logged,
           lines ← tied_lines (lyrics self) max_score (enumerate scores);
           random_choice k lines)
      end
  end.

(** ** PySwizzle.handle_tweet *)

(** The tweet object after the call, what was logged and sent, and the
    exception that left the call, if any. *)
Record outcome := {
  tweet_after : Tweet;
  effects : list effect;
  raised : option exn
}.

Definition with_mentions (tweet : Tweet) (mentions : list User) : Tweet :=
  {| id := id tweet; text := text tweet; user := user tweet;
     entities := {| user_mentions := mentions |} |}.

(** Lines 190-194: the reply for the handles [usernames] (already prefixed
    with @, in iteration order) and the chosen [line]. *)
Definition send_reply (usernames : list string) (line : string)
    (reply_to : Z) : list effect :=
  let reply := Py.join " " usernames +:+ " " +:+ line in
  if (140 <? String.length reply)%nat then
    [Log WARNING ("ALMOST SENT TOO LONG REPLY " +:+ dquote +:+ reply +:+ dquote);
     InterfaceTweet (Py.slice_to 140 reply) (Some reply_to)]
  else [InterfaceTweet reply (Some reply_to)].

Definition handle_tweet (self : PySwizzle) (k : nat) (tweet : Tweet) : outcome :=
  if decide (screen_name (user tweet) = username self) then
    {| tweet_after := tweet; effects := []; raised := None |}
  else
    (* mentions aliases the list inside the tweet: append mutates the tweet *)
    let mentions := (user_mentions (entities tweet) ++ [user tweet])%list in
    let tweet := with_mentions tweet mentions in
    let usernames : gset string := list_to_set (screen_name <$> mentions) in
    if decide (username self ∉ usernames) then
      {| tweet_after := tweet;
         effects := [Log INFO "NOT IN THAT TWEET"];
         raised := None |}
    else
      let usernames :=
        (fun u => "@" +:+ u) <$> filter (fun u => u <> username self) (elements usernames) in
      match choose_lyric self k (text tweet) with
      | (logged, Raise e) =>
          {| tweet_after := tweet; effects := logged; raised := Some e |}
      | (logged, Ok line) =>
          {| tweet_after := tweet;
             effects := (logged ++ send_reply usernames line (id tweet))%list;
             raised := None |}
      end.

(** ** TwitterInterface *)

(** One record of the user stream: whether it has the key 'hangup', and the
    values under 'event' and, for a tweet, the tweet itself. *)
Record Item := {
  hangup : bool;
  event : option string;
  message : option Tweet
}.

(** The library's hangup notice, [{'hangup': True}]. *)
Definition Hangup : Item := {| hangup := true; event := None; message := None |}.

(** [iterator] is [self.iterator], what is left of the current connection;
    [upcoming] is what the service delivers on each later connection, in the
    order [open_stream] will obtain them. *)
Record TwitterInterface := {
  iterator : list Item;
  upcoming : list (list Item)
}.

Definition open_stream (self : TwitterInterface) : result TwitterInterface :=
  match upcoming self with
  | [] => Raise ConnectionError
  | stream :: later => Ok {| iterator := stream; upcoming := later |}
  end.

(** [__next__]; the recursion [next(self)] follows a fresh connection, so it
    is structural in the connections still to come.  This is [__next__] on a
    stack without bound; [next_within] below has the interpreter's bound on
    the depth of the recursion, and agrees with this one whenever the
    activations it needs fit. *)
Fixpoint next_on (later : list (list Item)) (it : list Item)
    : result Item * TwitterInterface :=
  match it with
  | [] => (Raise StopIteration, {| iterator := []; upcoming := later |})
  | n :: rest =>
      if hangup n then
        match later with
        | [] => (Raise ConnectionError, {| iterator := rest; upcoming := [] |})
        | stream :: later' => next_on later' stream
        end
      else (Ok n, {| iterator := rest; upcoming := later |})
  end.

Definition __next__ (self : TwitterInterface) : result Item * TwitterInterface :=
  next_on (upcoming self) (iterator self).

(** [for tweet in self.interface]: the items the loop body is run on, and the
    exception that ends the loop ([StopIteration] is the normal end).  [fuel]
    bounds the number of rounds. *)
Fixpoint for_each (fuel : nat) (self : TwitterInterface)
    : option (list Item * exn) :=
  match fuel with
  | O => None
  | S fuel' =>
      match __next__ self with
      | (Raise e, _) => Some ([], e)
      | (Ok n, self') =>
          match for_each fuel' self' with
          | None => None
          | Some (items, e) => Some (n :: items, e)
          end
      end
  end.

(** Number of records the service still holds for this interface. *)
Definition pending (self : TwitterInterface) : nat :=
  length (iterator self) + sum_list (length <$> upcoming self).

(** [__next__] under the interpreter's recursion limit.  [depth] is the
    number of nested activations of [__next__] that still fit on the stack;
    the activation beyond them raises RecursionError, after the connection
    has been reopened. *)
Fixpoint next_within (depth : nat) (later : list (list Item)) (it : list Item)
    : result Item * TwitterInterface :=
  match depth with
  | O => (Raise RecursionError, {| iterator := it; upcoming := later |})
  | S depth' =>
      match it with
      | [] => (Raise StopIteration, {| iterator := []; upcoming := later |})
      | n :: rest =>
          if hangup n then
            match later with
            | [] => (Raise ConnectionError, {| iterator := rest; upcoming := [] |})
            | stream :: later' => next_within depth' later' stream
            end
          else (Ok n, {| iterator := rest; upcoming := later |})
      end
  end.

Definition next_bounded (depth : nat) (self : TwitterInterface)
    : result Item * TwitterInterface :=
  next_within depth (upcoming self) (iterator self).

(** [for tweet in self.interface] over [next_bounded]; every call of
    [__next__] by the loop starts with [depth] activations to spare. *)
Fixpoint for_each_bounded (depth fuel : nat) (self : TwitterInterface)
    : option (list Item * exn) :=
  match fuel with
  | O => None
  | S fuel' =>
      match next_bounded depth self with
      | (Raise e, _) => Some ([], e)
      | (Ok n, self') =>
          match for_each_bounded depth fuel' self' with
          | None => None
          | Some (items, e) => Some (n :: items, e)
          end
      end
  end.

(** The activations of [__next__] that one call needs: one, and one more
    for each hangup notice met back to back at the head of a connection. *)
Fixpoint need (later : list (list Item)) (it : list Item) : nat :=
  match it with
  | [] => 1
  | n :: _ =>
      if hangup n then
        match later with
        | [] => 1
        | stream :: later' => S (need later' stream)
        end
      else 1
  end.

(** No call of [__next__] on the connections [later], wherever a hangup
    notice falls, needs more than [depth] activations. *)
Fixpoint calm (depth : nat) (later : list (list Item)) : bool :=
  (need later [{| hangup := true; event := None; message := None |}] <=? depth)%nat
  && match later with
     | [] => true
     | _ :: later' => calm depth later'
     end.

(** ** TwitterInterface.tweet *)

(** A call of the service's [statuses.update], with the keyword arguments
    it is given. *)
Inductive api_call :=
  | StatusesUpdate (status : string) (in_reply_to_status_id : option Z).

Definition TwitterInterface_tweet (msg : string) (reply_to : option Z) : api_call :=
  match reply_to with
  | None => StatusesUpdate msg None
  | Some parent => StatusesUpdate msg (Some parent)
  end.

(** The service calls a run of the bot makes through [TwitterInterface]. *)
Fixpoint posted (done : list effect) : list api_call :=
  match done with
  | [] => []
  | Log _ _ :: rest => posted rest
  | InterfaceTweet msg reply_to :: rest =>
      TwitterInterface_tweet msg reply_to :: posted rest
  end.

(** ** DebugInterface *)

Record DebugInterface := { tweets : list Item }.

(** [__iter__] gives [iter(self.tweets)]; a list iterator is what is left of
    the list. *)
Definition DebugInterface_iter (self : DebugInterface) : list Item := tweets self.

Definition list_next (it : list Item) : result Item * list Item :=
  match it with
  | [] => (Raise StopIteration, [])
  | n :: rest => (Ok n, rest)
  end.

(** [DebugInterface.tweet]: the message is logged, the keyword arguments are
    dropped. *)
Definition DebugInterface_tweet (msg : string) (reply_to : option Z) : list effect :=
  [Log INFO ("SEND: " +:+ dquote +:+ msg +:+ dquote)].

(** What a run shows under [DebugInterface]. *)
Fixpoint debug_output (done : list effect) : list effect :=
  match done with
  | [] => []
  | Log lvl msg :: rest => Log lvl msg :: debug_output rest
  | InterfaceTweet msg reply_to :: rest =>
      (DebugInterface_tweet msg reply_to ++ debug_output rest)%list
  end.

(** ** PySwizzle.run *)

(** A callback of [self.events]: what it logs and sends, and the exception
    it raises, if any. *)
Definition callback : Type := Item -> list effect * option exn.

Section run.
(** [pprint.pformat] on a stream record. *)
Variable pformat : Item -> string.

(** The body of the loop of [run], on one record; [k] is the draw of
    [random.choice], should the record be answered. *)
Definition run_body (self : PySwizzle) (events : gmap string callback)
    (k : nat) (tweet : Item) : list effect * option exn :=
  let debug := Log DEBUG ("TWEET:" +:+ pformat tweet) in
  match event tweet with
  | Some kind =>
      match events !! kind with
      | Some handler =>
          let '(done, err) := handler tweet in
          (debug
             :: Log INFO ("HANDLING EVENT " +:+ dquote +:+ kind +:+ dquote +:+ ".")
             :: done,
           err)
      | None =>
          ([debug;
            Log INFO ("UNHANDLED EVENT " +:+ dquote +:+ kind +:+ dquote +:+ ".")],
           None)
      end
  | None =>
      match message tweet with
      | Some t =>
          let handled := handle_tweet self k t in
          (debug
             :: Log INFO ("HANDLING TWEET: @" +:+ screen_name (user t) +:+ ": "
                          +:+ dquote +:+ text t +:+ dquote)
             :: effects handled,
           raised handled)
      | None => ([debug], None)
      end
  end.

(** [for tweet in self.interface: ...], for an iterator with state [It] and
    [__next__] method [next].  The [i]-th record is handled with the draw
    [draw i]; [fuel] bounds the number of rounds.  The result is what was
    logged and sent, and the exception that ended the loop, if it was not
    the iterator's StopIteration. *)
Fixpoint run_loop {It : Type} (next : It -> result Item * It)
    (self : PySwizzle) (events : gmap string callback) (draw : nat -> nat)
    (fuel i : nat) (it : It) : option (list effect * option exn) :=
  match fuel with
  | O => None
  | S fuel' =>
      match next it with
      | (Raise StopIteration, _) => Some ([], None)
      | (Raise e, _) => Some ([], Some e)
      | (Ok tweet, it') =>
          match run_body self events (draw i) tweet with
          | (done, Some e) => Some (done, Some e)
          | (done, None) =>
              match run_loop next self events draw fuel' (S i) it' with
              | None => None
              | Some (more, ending) => Some ((done ++ more)%list, ending)
              end
          end
      end
  end.

(** [run]: the lyrics are loaded from the default file when none are there
    yet, then the loop runs. *)
Definition run {It : Type} (next : It -> result Item * It)
    (self : PySwizzle) (events : gmap string callback)
    (fs : string -> option string) (draw : nat -> nat)
    (fuel : nat) (it : It) : option (list effect * option exn) :=
  match lyrics self with
  | None =>
      match load_lyrics self fs "taylor.txt" with
      | Raise e => Some ([], Some e)
      | Ok self' => run_loop next self' events draw fuel 0 it
      end
  | Some _ => run_loop next self events draw fuel 0 it
  end.
End run.

(** ** What a connection delivers *)

(** The records of a connection that come before its first hangup notice. *)
Fixpoint before_hangup (it : list Item) : list Item :=
  match it with
  | [] => []
  | n :: rest => if hangup n then [] else n :: before_hangup rest
  end.

Fixpoint hangs_up (it : list Item) : bool :=
  match it with
  | [] => false
  | n :: rest => hangup n || hangs_up rest
  end.

(** The records of the current connection up to its first hangup, then
    those of the next connection up to its first hangup, and so on, until a
    connection ends by itself or none is left to open. *)
Fixpoint delivered (later : list (list Item)) (it : list Item) : list Item * exn :=
  if hangs_up it then
    match later with
    | [] => (before_hangup it, ConnectionError)
    | stream :: later' =>
        let '(more, ending) := delivered later' stream in
        ((before_hangup it ++ more)%list, ending)
    end
  else (it, StopIteration).

(** The characters of a string. *)
Fixpoint chars (s : string) : list ascii :=
  match s with
  | EmptyString => []
  | String c s' => c :: chars s'
  end.

(** A [pformat] for the sample runs. *)
Definition sample_pformat (tweet : Item) : string :=
  match message tweet with
  | Some t => text t
  | None => "{}"
  end.

(** ** Notions the properties are stated with *)

(** [piece] is a substring of [line]: it occurs at some offset. *)
Definition occurs_in (piece line : string) : Prop :=
  exists pre post, line = pre +:+ piece +:+ post.

(** The score of a corpus line for a tweet's text, as [choose_lyric]
    computes it: on the lowercase line. *)
Definition score_of (text0 line : string) : nat :=
  similarity (pieces_of text0) (Py.lower line).

(** ** Sample data *)

Definition fresh_bot : PySwizzle :=
  {| username := "pyswizzle"; lyrics := None; lyrics_lower := None |}.

(** A bot whose corpus is [ls], in the state [load_lyrics] leaves. *)
Definition bot_with (ls : list string) : PySwizzle :=
  {| username := "pyswizzle";
     lyrics := Some ls;
     lyrics_lower := Some (Py.lower <$> ls) |}.

(** A file system holding one file. *)
Definition one_file (name content : string) : string -> option string :=
  fun n => if decide (n = name) then Some content else None.

Definition trouble_corpus : list string :=
  ["i knew you were trouble"; "we are never getting back together";
   "shake it off"].

Definition trouble_query : string :=
  "i knew you were trouble when you walked in".

(** A lyrics file whose second line holds one space. *)
Definition blank_line_file : string :=
  "Hello" +:+ newline +:+ " " +:+ newline +:+ "World" +:+ newline.

(** The three-line corpus as a file. *)
Definition trouble_file : string :=
  "i knew you were trouble" +:+ newline
  +:+ "we are never getting back together" +:+ newline
  +:+ "shake it off" +:+ newline.

(** The handles of a conversation, as [handle_tweet] collects them: the
    mentioned users and the author. *)
Definition participants (tweet : Tweet) : gset string :=
  list_to_set (screen_name <$> (user_mentions (entities tweet) ++ [user tweet])%list).

(** The @-prefixed handles the reply starts with. *)
Definition reply_handles (self : PySwizzle) (tweet : Tweet) : list string :=
  (fun u => "@" +:+ u)
    <$> filter (fun u => u <> username self) (elements (participants tweet)).

(** The tweet of a record that [run] hands to [handle_tweet] and that
    [handle_tweet] sets out to answer: the record has no key 'event', it
    carries a tweet, the author is not the bot and the bot is a
    participant. *)
Definition answerable (self : PySwizzle) (n : Item) : option Tweet :=
  match event n with
  | Some _ => None
  | None =>
      match message n with
      | Some t =>
          if decide (screen_name (user t) <> username self
                     /\ username self ∈ participants t)
          then Some t else None
      | None => None
      end
  end.

Definition in_reply_to (c : api_call) : option Z :=
  match c with StatusesUpdate _ parent => parent end.

Definition status_of (c : api_call) : string :=
  match c with StatusesUpdate status _ => status end.

Definition alice : User := {| screen_name := "alice"; user_id := 1 |}.
Definition bob : User := {| screen_name := "bob"; user_id := 2 |}.
Definition swizzle : User := {| screen_name := "pyswizzle"; user_id := 3 |}.

(** alice writes to the bot and to bob. *)
Definition mention_tweet : Tweet :=
  {| id := 99; text := "@pyswizzle @bob shake";
     user := alice;
     entities := {| user_mentions := [swizzle; bob] |} |}.

(** The bot's own tweet, mentioning alice. *)
Definition own_tweet : Tweet :=
  {| id := 100; text := "@alice shake it off";
     user := swizzle;
     entities := {| user_mentions := [alice] |} |}.

(** alice writes to bob only. *)
Definition other_tweet : Tweet :=
  {| id := 101; text := "@bob hello";
     user := alice;
     entities := {| user_mentions := [bob] |} |}.

(** A lyric of 130 characters. *)
Definition long_line : string :=
  "la la la la la la la la la la la la la la la la la la la la la la la la la la la la la la la la la la la la la la la la la la la l".

(** Two tweets as stream records, and a stream that hangs up between them:
    the first connection delivers A and the hangup notice, the connection
    opened next delivers B. *)
Definition item_A : Item :=
  {| hangup := false; event := None; message := Some mention_tweet |}.
Definition item_B : Item :=
  {| hangup := false; event := None; message := Some other_tweet |}.

Definition dropped_stream : TwitterInterface :=
  {| iterator := [item_A; Hangup]; upcoming := [[item_B]] |}.

(** A follow event that also carries a tweet to the bot. *)
Definition follow_item : Item :=
  {| hangup := false; event := Some "follow"; message := Some mention_tweet |}.

(** A connection that opens with a hangup notice. *)
Definition hangup_first : TwitterInterface :=
  {| iterator := [Hangup]; upcoming := [[item_B]] |}.

(** * Properties *)

(** ** Strings *)

Section string_facts.
Implicit Types (s t p : string) (c : ascii).

Lemma str_app_cons c s t : String c s +:+ t = String c (s +:+ t).
Proof. reflexivity. Qed.

Lemma str_app_empty_r s : s +:+ "" = s.
Proof. induction s as [|c s IH]; [reflexivity|]. rewrite str_app_cons, IH. reflexivity. Qed.

Lemma str_app_assoc s t p : (s +:+ t) +:+ p = s +:+ t +:+ p.
Proof.
  induction s as [|c s IH]; [reflexivity|].
  rewrite !str_app_cons, IH. reflexivity.
Qed.

Lemma str_length_app s t :
  String.length (s +:+ t) = String.length s + String.length t.
Proof.
  induction s as [|c s IH]; [reflexivity|].
  rewrite str_app_cons. simpl. rewrite IH. reflexivity.
Qed.

Lemma startswith_spec p s :
  Py.startswith p s = true <-> exists post, s = p +:+ post.
Proof.
  revert s. induction p as [|a p IH]; intros s.
  - split; [intros _; exists s; reflexivity | reflexivity].
  - destruct s as [|b s]; simpl.
    + split; [discriminate | intros [post H]; discriminate H].
    + destruct (ascii_dec a b) as [->|Hne].
      * rewrite IH. split; intros [post H]; exists post.
        -- rewrite str_app_cons, H. reflexivity.
        -- rewrite str_app_cons in H. injection H as H. exact H.
      * split; [discriminate|].
        intros [post H]. rewrite str_app_cons in H. injection H as H1 _.
        congruence.
Qed.

Lemma contains_spec p s : Py.contains p s = true <-> occurs_in p s.
Proof.
  unfold occurs_in. induction s as [|b s IH].
  - simpl. rewrite orb_false_r, startswith_spec. split.
    + intros [post H]. exists "", post. exact H.
    + intros [[|c pre] [post H]]; [exists post; exact H|].
      rewrite str_app_cons in H. discriminate H.
  - change (Py.contains p (String b s))
      with (Py.startswith p (String b s) || Py.contains p s).
    rewrite orb_true_iff, IH, startswith_spec. split.
    + intros [[post H]|(pre & post & H)].
      * exists "", post. exact H.
      * exists (String b pre), post. rewrite str_app_cons, H. reflexivity.
    + intros ([|c pre] & post & H).
      * left. exists post. exact H.
      * right. rewrite str_app_cons in H. injection H as _ H.
        exists pre, post. exact H.
Qed.

Lemma slice_to_length n s :
  String.length (Py.slice_to n s) = Nat.min n (String.length s).
Proof.
  revert s. induction n as [|n IH]; intros [|c s]; simpl; try reflexivity.
  rewrite IH. reflexivity.
Qed.

Lemma slice_to_prefix n s : exists rest, s = Py.slice_to n s +:+ rest.
Proof.
  revert s. induction n as [|n IH]; intros s.
  - exists s. reflexivity.
  - destruct s as [|c s]; [exists ""; reflexivity|].
    destruct (IH s) as [rest H]. exists rest. simpl.
    rewrite str_app_cons, <- H. reflexivity.
Qed.
End string_facts.

(** The primitives on concrete strings. *)

Example split_ex :
  Py.split (" i Knew  you" +:+ newline +:+ "x ") = ["i"; "Knew"; "you"; "x"].
Proof. reflexivity. Qed.

Example strip_ex : Py.strip ("  Shake it  Off " +:+ newline) = "Shake it  Off".
Proof. reflexivity. Qed.

Example lower_ex : Py.lower "Shake It OFF!" = "shake it off!".
Proof. reflexivity. Qed.

Example contains_ex :
  Py.contains "in" "contained" = true
  /\ Py.contains "" "" = true
  /\ Py.contains "knew" "i know" = false.
Proof. repeat split. Qed.

Example iter_lines_ex :
  Py.iter_lines ("a" +:+ newline +:+ newline +:+ "b")
  = ["a" +:+ newline; newline; "b"].
Proof. reflexivity. Qed.

Example pieces_of_ex :
  pieces_of "Shake shake IT" = {[ "shake"; "it" ]}.
Proof. vm_compute. reflexivity. Qed.

(** ** similarity *)

Lemma sum_b2n_filter {A} (f : A -> bool) (l : list A) :
  sum_list ((fun x => Nat.b2n (f x)) <$> l)
  = length (filter (fun x => f x = true) l).
Proof.
  induction l as [|x l IH]; [reflexivity|].
  rewrite filter_cons. cbn [fmap list_fmap sum_list_with id].
  fold (fmap (M:=list) (fun x => Nat.b2n (f x)) l).
  rewrite IH. case_decide as Hx.
  - rewrite Hx. reflexivity.
  - destruct (f x); [congruence|reflexivity].
Qed.

Lemma similarity_size pieces line :
  similarity pieces line
  = size (filter (fun p => Py.contains p line = true) pieces).
Proof.
  unfold similarity. rewrite sum_b2n_filter.
  change (filter (fun p => Py.contains p line = true) pieces)
    with (list_to_set (C:=gset string)
            (filter (fun p => Py.contains p line = true) (elements pieces))).
  rewrite size_list_to_set; [reflexivity|].
  apply NoDup_filter, NoDup_elements.
Qed.

(** C7: the score is the number of query words that occur in the line as a
    substring, wherever they occur; so it lies between 0 and the number of
    query words. *)
Theorem similarity_counts_substrings (pieces : gset string) (line : string) :
  exists matched : gset string,
    (forall piece, piece ∈ matched <-> piece ∈ pieces /\ occurs_in piece line)
    /\ similarity pieces line = size matched
    /\ 0 <= similarity pieces line <= size pieces.
Proof.
  exists (filter (fun p => Py.contains p line = true) pieces).
  split; [|split].
  - intros piece. rewrite elem_of_filter, contains_spec. tauto.
  - apply similarity_size.
  - split; [lia|]. rewrite similarity_size.
    apply subseteq_size. intros p. rewrite elem_of_filter. tauto.
Qed.

(** ** choose_lyric *)

Section choose_lyric_facts.
Variables (ls : list string) (max_score : nat).

(** The comprehension over [enumerate(scores)] never indexes outside
    [ls] when there are no more scores than lines, and collects exactly
    the lines whose score is the maximum. *)
Lemma tied_lines_spec (scores : list nat) (i : nat) :
  i + length scores <= length ls ->
  exists lines,
    tied_lines (Some ls) max_score (enumerate_from i scores) = Ok lines
    /\ forall l, l ∈ lines <->
         exists j, scores !! j = Some max_score /\ ls !! (i + j) = Some l.
Proof.
  revert i. induction scores as [|sc scores IH]; intros i Hlen.
  - exists []. split; [reflexivity|]. intros l. split.
    + intros H. inversion H.
    + intros (j & H & _). destruct j; discriminate H.
  - simpl in Hlen. destruct (IH (S i)) as (lines & Hlines & Hin); [lia|].
    destruct (lookup_lt_is_Some_2 ls i) as [x Hx]; [lia|].
    cbn [enumerate_from tied_lines]. rewrite Hlines.
    destruct (decide (sc = max_score)) as [->|Hne].
    + exists (x :: lines). split.
      * unfold getitem. rewrite Hx. reflexivity.
      * intros l. rewrite elem_of_cons, Hin. split.
        -- intros [->|(j & Hj & Hl)].
           ++ exists 0. rewrite Nat.add_0_r. split; [reflexivity|exact Hx].
           ++ exists (S j). rewrite Nat.add_succ_r. split; assumption.
        -- intros ([|j] & Hj & Hl).
           ++ left. rewrite Nat.add_0_r in Hl. congruence.
           ++ right. exists j. rewrite Nat.add_succ_r in Hl. split; assumption.
    + exists lines. split; [reflexivity|].
      intros l. rewrite Hin. split.
      * intros (j & Hj & Hl). exists (S j).
        rewrite Nat.add_succ_r. split; assumption.
      * intros ([|j] & Hj & Hl).
        -- simpl in Hj. congruence.
        -- exists j. rewrite Nat.add_succ_r in Hl. split; assumption.
Qed.
End choose_lyric_facts.

Lemma random_choice_elem {A} (k : nat) (seq : list A) (x : A) :
  random_choice k seq = Ok x -> x ∈ seq.
Proof.
  unfold random_choice. destruct (seq !! _) as [y|] eqn:E; [|discriminate].
  intros [= <-]. eapply list_elem_of_lookup_2, E.
Qed.

Lemma random_choice_total {A} (k : nat) (seq : list A) :
  seq <> [] -> exists x, random_choice k seq = Ok x.
Proof.
  intros Hne. unfold random_choice.
  destruct (lookup_lt_is_Some_2 seq (k mod length seq)) as [x ->]; [|eauto].
  apply Nat.mod_upper_bound. destruct seq; [congruence|simpl; lia].
Qed.

Lemma random_choice_any {A} (seq : list A) (x : A) :
  x ∈ seq -> exists k, random_choice k seq = Ok x.
Proof.
  intros [j Hj]%list_elem_of_lookup_1. exists j. unfold random_choice.
  rewrite Nat.mod_small by (eapply lookup_lt_Some, Hj).
  rewrite Hj. reflexivity.
Qed.

Lemma py_max_nonempty (scores : list nat) :
  scores <> [] -> py_max scores = Ok (max_list scores).
Proof. destruct scores; [congruence|reflexivity]. Qed.

(** What [choose_lyric] computes on a loaded, non-empty corpus. *)
Lemma choose_lyric_loaded (self : PySwizzle) (ls : list string) (text0 : string) :
  lyrics self = Some ls ->
  lyrics_lower self = Some (Py.lower <$> ls) ->
  ls <> [] ->
  let max_score := max_list (score_of text0 <$> ls) in
  exists lines,
    lines <> []
    /\ (forall l, l ∈ lines <-> l ∈ ls /\ score_of text0 l = max_score)
    /\ forall k, choose_lyric self k text0
         = ([Log INFO ("MAX SCORE: " +:+ pretty max_score)],
            random_choice k lines).
Proof.
  intros Hl Hll Hne. unfold choose_lyric. rewrite Hll, Hl.
  rewrite <- list_fmap_compose.
  change (similarity (pieces_of text0) ∘ Py.lower) with (score_of text0).
  set (scores := score_of text0 <$> ls).
  assert (Hsc : scores <> []).
  { subst scores. destruct ls; [congruence|discriminate]. }
  rewrite (py_max_nonempty scores Hsc).
  destruct (tied_lines_spec ls (max_list scores) scores 0)
    as (lines & Hlines & Hin).
  { subst scores. rewrite length_fmap. lia. }
  exists lines. cbn zeta. unfold enumerate. rewrite Hlines.
  assert (Hchar : forall l, l ∈ lines <->
            l ∈ ls /\ score_of text0 l = max_list scores).
  { intros l. rewrite Hin. split.
    - intros (j & Hj & Hlj). simpl in Hlj. split.
      + eapply list_elem_of_lookup_2, Hlj.
      + subst scores. rewrite list_lookup_fmap, Hlj in Hj. simpl in Hj. congruence.
    - intros [[j Hj]%list_elem_of_lookup_1 Hs]. exists j. split; [|exact Hj].
      subst scores. rewrite list_lookup_fmap, Hj. simpl. congruence. }
  split; [|split; [exact Hchar|reflexivity]].
  assert (Hmax : max_list scores ∈ scores) by (apply max_list_elem_of, Hsc).
  subst scores. apply list_elem_of_fmap in Hmax as (l & Hs & Hl').
  intros ->. assert (Hbad : l ∈ []) by (apply Hchar; split; [exact Hl'|congruence]).
  inversion Hbad.
Qed.

(** C1: on a non-empty corpus [choose_lyric] always returns; what it returns
    is a line of the corpus whose score is the maximum over the corpus; each
    line with the maximum score is returned for some draw, and a line with a
    lower score for none. *)
Theorem choose_lyric_returns_max (self : PySwizzle) (ls : list string)
    (text0 : string) :
  lyrics self = Some ls ->
  lyrics_lower self = Some (Py.lower <$> ls) ->
  ls <> [] ->
  exists max_score,
    (exists l, l ∈ ls /\ score_of text0 l = max_score)
    /\ (forall l, l ∈ ls -> score_of text0 l <= max_score)
    /\ (forall k, exists line, (choose_lyric self k text0).2 = Ok line)
    /\ (forall k line, (choose_lyric self k text0).2 = Ok line ->
          line ∈ ls /\ score_of text0 line = max_score)
    /\ (forall line, line ∈ ls -> score_of text0 line = max_score ->
          exists k, (choose_lyric self k text0).2 = Ok line)
    /\ (forall line, score_of text0 line <> max_score ->
          forall k, (choose_lyric self k text0).2 <> Ok line).
Proof.
  intros Hl Hll Hne.
  exists (max_list (score_of text0 <$> ls)).
  destruct (choose_lyric_loaded self ls text0 Hl Hll Hne)
    as (lines & Hlines & Hchar & Hrun).
  assert (Hret : forall k line, (choose_lyric self k text0).2 = Ok line ->
            line ∈ ls /\ score_of text0 line = max_list (score_of text0 <$> ls)).
  { intros k line. rewrite Hrun. simpl.
    intros H%random_choice_elem. apply Hchar, H. }
  split; [|split; [|split; [|split; [|split]]]].
  - assert (Hmax : max_list (score_of text0 <$> ls) ∈ score_of text0 <$> ls).
    { apply max_list_elem_of. destruct ls; [congruence|discriminate]. }
    apply list_elem_of_fmap in Hmax as (l & Hs & Hin). eauto.
  - intros l Hin. apply max_list_elem_of_le, list_elem_of_fmap_2, Hin.
  - intros k. rewrite Hrun. simpl. apply random_choice_total, Hlines.
  - exact Hret.
  - intros line Hin Hs.
    destruct (random_choice_any lines line) as [k Hk]; [apply Hchar; auto|].
    exists k. rewrite Hrun. exact Hk.
  - intros line Hs k H. apply Hret in H as [_ H]. congruence.
Qed.

Lemma choose_lyric_returns_max_witness :
  lyrics (bot_with trouble_corpus) = Some trouble_corpus
  /\ lyrics_lower (bot_with trouble_corpus) = Some (Py.lower <$> trouble_corpus)
  /\ trouble_corpus <> []
  /\ exists max_score,
       (exists l, l ∈ trouble_corpus /\ score_of trouble_query l = max_score)
       /\ (forall l, l ∈ trouble_corpus -> score_of trouble_query l <= max_score)
       /\ (forall k, exists line,
             (choose_lyric (bot_with trouble_corpus) k trouble_query).2 = Ok line)
       /\ (forall k line,
             (choose_lyric (bot_with trouble_corpus) k trouble_query).2 = Ok line ->
             line ∈ trouble_corpus /\ score_of trouble_query line = max_score)
       /\ (forall line, line ∈ trouble_corpus ->
             score_of trouble_query line = max_score ->
             exists k,
               (choose_lyric (bot_with trouble_corpus) k trouble_query).2 = Ok line)
       /\ (forall line, score_of trouble_query line <> max_score ->
             forall k,
               (choose_lyric (bot_with trouble_corpus) k trouble_query).2 <> Ok line).
Proof.
  split; [reflexivity|]. split; [reflexivity|]. split; [discriminate|].
  apply (choose_lyric_returns_max (bot_with trouble_corpus) trouble_corpus
           trouble_query); [reflexivity|reflexivity|discriminate].
Defined.

(** C9: on the three-line corpus and the query "i knew you were trouble when
    you walked in" the scores are 5, 2 and 1; the maximum 5 belongs to
    "i knew you were trouble" alone, and [choose_lyric] returns that line
    whatever the draw. *)
Theorem choose_lyric_trouble :
  score_of trouble_query <$> trouble_corpus = [5; 2; 1]
  /\ max_list (score_of trouble_query <$> trouble_corpus) = 5
  /\ (forall line, line ∈ trouble_corpus ->
        score_of trouble_query line = 5 -> line = "i knew you were trouble")
  /\ forall k,
       choose_lyric (bot_with trouble_corpus) k trouble_query
       = ([Log INFO "MAX SCORE: 5"], Ok "i knew you were trouble").
Proof.
  assert (Hscores : score_of trouble_query <$> trouble_corpus = [5; 2; 1])
    by (vm_compute; reflexivity).
  split; [exact Hscores|]. split; [rewrite Hscores; reflexivity|]. split.
  - intros line Hin Hs. unfold trouble_corpus in Hin.
    rewrite !elem_of_cons in Hin.
    destruct Hin as [->|[->|[->|Hin]]]; [reflexivity| | |inversion Hin];
      vm_compute in Hs; discriminate Hs.
  - intros k.
    assert (Hrun : forall lines,
      tied_lines (lyrics (bot_with trouble_corpus)) 5
        (enumerate [5; 2; 1]) = Ok lines ->
      choose_lyric (bot_with trouble_corpus) k trouble_query
      = ([Log INFO "MAX SCORE: 5"], random_choice k lines)).
    { intros lines Hlines. unfold choose_lyric.
      cbn [lyrics_lower bot_with].
      rewrite <- list_fmap_compose.
      change (similarity (pieces_of trouble_query) ∘ Py.lower)
        with (score_of trouble_query).
      rewrite Hscores. cbn [py_max]. 
      change (max_list [5; 2; 1]) with 5. rewrite Hlines. reflexivity. }
    rewrite (Hrun ["i knew you were trouble"]) by reflexivity.
    unfold random_choice. cbn [length]. rewrite Nat.mod_1_r. reflexivity.
Qed.

(** ** load_lyrics *)

Lemma load_lyrics_ok (self : PySwizzle) (fs : string -> option string)
    (filename content : string) :
  fs filename = Some content ->
  load_lyrics self fs filename
  = Ok {| username := username self;
          lyrics := Some (Py.strip <$>
                            filter (fun l => l <> newline) (Py.iter_lines content));
          lyrics_lower :=
            Some (Py.lower <$> (Py.strip <$>
                    filter (fun l => l <> newline) (Py.iter_lines content))) |}.
Proof. intros Hfs. unfold load_lyrics. rewrite Hfs. reflexivity. Qed.

Lemma load_lyrics_inv (self loaded : PySwizzle) (fs : string -> option string)
    (filename : string) :
  load_lyrics self fs filename = Ok loaded ->
  exists content, fs filename = Some content.
Proof.
  unfold load_lyrics. destruct (fs filename) as [content|]; [eauto|discriminate].
Qed.

(** The state a load leaves is the one [choose_lyric] is reasoned about in. *)
Lemma load_lyrics_invariant (self loaded : PySwizzle)
    (fs : string -> option string) (filename : string) :
  load_lyrics self fs filename = Ok loaded ->
  exists ls,
    lyrics loaded = Some ls
    /\ lyrics_lower loaded = Some (Py.lower <$> ls)
    /\ username loaded = username self.
Proof.
  intros Hload. destruct (load_lyrics_inv _ _ _ _ Hload) as [content Hfs].
  rewrite (load_lyrics_ok self fs filename content Hfs) in Hload.
  injection Hload as <-. eexists. repeat split.
Qed.

Example handle_tweet_ex :
  handle_tweet (bot_with trouble_corpus) 0 mention_tweet
  = {| tweet_after :=
         with_mentions mention_tweet [swizzle; bob; alice];
       effects :=
         [Log INFO "MAX SCORE: 1";
          InterfaceTweet "@alice @bob shake it off" (Some 99%Z)];
       raised := None |}.
Proof. vm_compute. reflexivity. Qed.

(** C8: a load leaves two sequences of the same length, the second holding
    the lowercase form of the first index by index; loading the same source
    again, from the loaded bot or from any other, gives the same two
    sequences. *)
Theorem load_lyrics_idempotent (self loaded : PySwizzle)
    (fs : string -> option string) (filename : string) :
  load_lyrics self fs filename = Ok loaded ->
  exists lines lines_lower,
    lyrics loaded = Some lines
    /\ lyrics_lower loaded = Some lines_lower
    /\ length lines = length lines_lower
    /\ (forall i line, lines !! i = Some line ->
          lines_lower !! i = Some (Py.lower line))
    /\ (forall i low, lines_lower !! i = Some low ->
          exists line, lines !! i = Some line /\ low = Py.lower line)
    /\ load_lyrics loaded fs filename = Ok loaded
    /\ forall other, exists again,
         load_lyrics other fs filename = Ok again
         /\ lyrics again = Some lines
         /\ lyrics_lower again = Some lines_lower.
Proof.
  intros Hload. destruct (load_lyrics_inv _ _ _ _ Hload) as [content Hfs].
  rewrite (load_lyrics_ok self fs filename content Hfs) in Hload.
  injection Hload as <-. cbn [lyrics lyrics_lower username].
  eexists _, _. split; [reflexivity|]. split; [reflexivity|].
  split; [rewrite !length_fmap; reflexivity|]. split; [|split; [|split]].
  - intros i line Hi. rewrite list_lookup_fmap, Hi. reflexivity.
  - intros i low Hi. rewrite list_lookup_fmap in Hi.
    destruct (_ !! i) as [line|]; [|discriminate].
    injection Hi as <-. eauto.
  - rewrite (load_lyrics_ok _ fs filename content Hfs). reflexivity.
  - intros other. eexists.
    rewrite (load_lyrics_ok other fs filename content Hfs).
    split; [reflexivity|]. split; reflexivity.
Qed.

Lemma load_lyrics_idempotent_witness :
  exists lines lines_lower,
    lines = trouble_corpus
    /\ lyrics_lower (bot_with trouble_corpus) = Some lines_lower
    /\ length lines = length lines_lower
    /\ load_lyrics (bot_with trouble_corpus)
         (one_file "taylor.txt" trouble_file) "taylor.txt"
       = Ok (bot_with trouble_corpus).
Proof.
  destruct (load_lyrics_idempotent fresh_bot (bot_with trouble_corpus)
              (one_file "taylor.txt" trouble_file) "taylor.txt")
    as (lines & lines_lower & Hl & Hll & Hlen & _ & _ & Hagain & _);
    [vm_compute; reflexivity|].
  exists lines, lines_lower.
  split; [injection Hl as <-; reflexivity|].
  split; [exact Hll|]. split; [exact Hlen|exact Hagain].
Defined.

(** C5, at the file "Hello\n \nWorld\n": the line of one space is empty
    once its trailing whitespace is stripped, and yet the corpus keeps it,
    as the empty string. *)
Theorem load_lyrics_keeps_blank_line :
  Py.iter_lines blank_line_file
  = ["Hello" +:+ newline; " " +:+ newline; "World" +:+ newline]
  /\ Py.rstrip (" " +:+ newline) = ""
  /\ load_lyrics fresh_bot (one_file "taylor.txt" blank_line_file) "taylor.txt"
     = Ok {| username := "pyswizzle";
             lyrics := Some ["Hello"; ""; "World"];
             lyrics_lower := Some ["hello"; ""; "world"] |}.
Proof. repeat split. Qed.

(** Only a line that is exactly one newline is left out. *)
Lemma load_lyrics_keeps (self loaded : PySwizzle) (fs : string -> option string)
    (filename content : string) :
  fs filename = Some content ->
  load_lyrics self fs filename = Ok loaded ->
  forall l, l ∈ Py.iter_lines content -> l <> newline ->
    exists lines, lyrics loaded = Some lines /\ Py.strip l ∈ lines.
Proof.
  intros Hfs Hload l Hin Hne.
  rewrite (load_lyrics_ok self fs filename content Hfs) in Hload.
  injection Hload as <-. eexists. split; [reflexivity|].
  apply list_elem_of_fmap_2, list_elem_of_filter. split; assumption.
Qed.

(** C6 as stated does not hold: an empty file loads without any error,
    into an empty corpus. *)
Lemma load_lyrics_empty_file_no_error :
  filter (fun l => l <> newline) (Py.iter_lines "") = []
  /\ load_lyrics fresh_bot (one_file "taylor.txt" "") "taylor.txt"
     = Ok {| username := "pyswizzle"; lyrics := Some []; lyrics_lower := Some [] |}
  /\ forall e,
       load_lyrics fresh_bot (one_file "taylor.txt" "") "taylor.txt" <> Raise e.
Proof. split; [reflexivity|]. split; [reflexivity|]. intros e. discriminate. Qed.

(** C6, amended: when no line of the source is kept, [load_lyrics] returns
    normally with both sequences empty; it is [choose_lyric] that fails on
    that corpus, with the ValueError of [max] on an empty sequence, before
    it logs or draws anything. *)
Theorem load_lyrics_empty_corpus (self : PySwizzle)
    (fs : string -> option string) (filename content : string) :
  fs filename = Some content ->
  filter (fun l => l <> newline) (Py.iter_lines content) = [] ->
  exists loaded,
    load_lyrics self fs filename = Ok loaded
    /\ lyrics loaded = Some []
    /\ lyrics_lower loaded = Some []
    /\ forall k text0, choose_lyric loaded k text0 = ([], Raise ValueError).
Proof.
  intros Hfs Hempty. eexists. split.
  - rewrite (load_lyrics_ok self fs filename content Hfs), Hempty. reflexivity.
  - cbn. split; [reflexivity|]. split; [reflexivity|]. reflexivity.
Qed.

Lemma load_lyrics_empty_corpus_witness :
  exists loaded,
    load_lyrics fresh_bot (one_file "taylor.txt" newline) "taylor.txt" = Ok loaded
    /\ lyrics loaded = Some []
    /\ lyrics_lower loaded = Some []
    /\ forall k text0, choose_lyric loaded k text0 = ([], Raise ValueError).
Proof.
  apply (load_lyrics_empty_corpus fresh_bot (one_file "taylor.txt" newline)
           "taylor.txt" newline); reflexivity.
Defined.

(** ** handle_tweet *)

Lemma choose_lyric_logs (self : PySwizzle) (k : nat) (text0 : string) :
  forall e, e ∈ (choose_lyric self k text0).1 -> exists m, e = Log INFO m.
Proof.
  intros e. unfold choose_lyric.
  destruct (lyrics_lower self) as [ll|]; [|intros H; inversion H].
  destruct (py_max _) as [m|err]; [|intros H; inversion H].
  cbn [fst]. intros H. apply list_elem_of_singleton in H. eauto.
Qed.

(** The reply of lines 190-194, for any handles in any order and any line:
    one call of [interface.tweet], with at most 140 characters. *)
Lemma send_reply_spec (usernames : list string) (line : string) (reply_to : Z) :
  let reply := Py.join " " usernames +:+ " " +:+ line in
  (String.length reply <= 140 /\
   send_reply usernames line reply_to = [InterfaceTweet reply (Some reply_to)])
  \/ (140 < String.length reply /\
      String.length (Py.slice_to 140 reply) = 140 /\
      send_reply usernames line reply_to
      = [Log WARNING ("ALMOST SENT TOO LONG REPLY " +:+ dquote +:+ reply +:+ dquote);
         InterfaceTweet (Py.slice_to 140 reply) (Some reply_to)]).
Proof.
  intros reply. unfold send_reply. fold reply.
  destruct (140 <? String.length reply)%nat eqn:E.
  - apply Nat.ltb_lt in E. right. split; [exact E|]. split; [|reflexivity].
    rewrite slice_to_length. lia.
  - apply Nat.ltb_ge in E. left. split; [exact E|reflexivity].
Qed.

(** What [handle_tweet] does once the bot is among the participants and is
    not the author. *)
Lemma handle_tweet_mentioned (self : PySwizzle) (k : nat) (tweet : Tweet) :
  screen_name (user tweet) <> username self ->
  username self ∈ participants tweet ->
  handle_tweet self k tweet
  = let tweet' := with_mentions tweet
                    (user_mentions (entities tweet) ++ [user tweet])%list in
    match choose_lyric self k (text tweet) with
    | (logged, Raise e) =>
        {| tweet_after := tweet'; effects := logged; raised := Some e |}
    | (logged, Ok line) =>
        {| tweet_after := tweet';
           effects := (logged ++ send_reply (reply_handles self tweet) line (id tweet))%list;
           raised := None |}
    end.
Proof.
  intros Hauthor Hin. unfold handle_tweet.
  destruct (decide (screen_name (user tweet) = username self)); [contradiction|].
  fold (participants tweet).
  destruct (decide (username self ∉ participants tweet)); [contradiction|].
  reflexivity.
Qed.

Lemma handle_tweet_own (self : PySwizzle) (k : nat) (tweet : Tweet) :
  screen_name (user tweet) = username self ->
  handle_tweet self k tweet
  = {| tweet_after := tweet; effects := []; raised := None |}.
Proof.
  intros Hauthor. unfold handle_tweet.
  destruct (decide (screen_name (user tweet) = username self)); [reflexivity|].
  contradiction.
Qed.

Lemma author_participates (tweet : Tweet) :
  screen_name (user tweet) ∈ participants tweet.
Proof.
  unfold participants. apply elem_of_list_to_set, list_elem_of_fmap.
  exists (user tweet). split; [reflexivity|].
  apply elem_of_app. right. apply list_elem_of_singleton. reflexivity.
Qed.

Lemma handle_tweet_not_mentioned (self : PySwizzle) (k : nat) (tweet : Tweet) :
  username self ∉ participants tweet ->
  handle_tweet self k tweet
  = {| tweet_after := with_mentions tweet
                        (user_mentions (entities tweet) ++ [user tweet])%list;
       effects := [Log INFO "NOT IN THAT TWEET"];
       raised := None |}.
Proof.
  intros Hnot. unfold handle_tweet.
  destruct (decide (screen_name (user tweet) = username self)) as [Heq|_].
  - exfalso. apply Hnot. rewrite <- Heq. apply author_participates.
  - fold (participants tweet).
    destruct (decide (username self ∉ participants tweet)); [reflexivity|].
    contradiction.
Qed.

(** Every tweet either is the bot's own, or does not involve the bot, or is
    answered. *)
Lemma handle_tweet_cases (self : PySwizzle) (tweet : Tweet) :
  screen_name (user tweet) = username self
  \/ username self ∉ participants tweet
  \/ (screen_name (user tweet) <> username self
      /\ username self ∈ participants tweet).
Proof.
  destruct (decide (screen_name (user tweet) = username self)); [auto|].
  destruct (decide (username self ∈ participants tweet)); auto.
Qed.

(** What is known of a message that [handle_tweet] hands to the interface. *)
Lemma handle_tweet_sent_spec (self : PySwizzle) (k : nat)
    (tweet : Tweet) (msg : string) (reply_to : option Z) :
  InterfaceTweet msg reply_to ∈ effects (handle_tweet self k tweet) ->
  exists line,
    (choose_lyric self k (text tweet)).2 = Ok line
    /\ reply_to = Some (id tweet)
    /\ String.length msg <= 140
    /\ let reply := Py.join " " (reply_handles self tweet) +:+ " " +:+ line in
       (String.length reply <= 140 -> msg = reply)
       /\ (140 < String.length reply ->
           msg = Py.slice_to 140 reply
           /\ String.length msg = 140
           /\ (exists rest, reply = msg +:+ rest)
           /\ Log WARNING
                ("ALMOST SENT TOO LONG REPLY " +:+ dquote +:+ reply +:+ dquote)
              ∈ effects (handle_tweet self k tweet)).
Proof.
  destruct (handle_tweet_cases self tweet) as [Hown|[Hnot|[Hauthor Hin]]].
  - rewrite (handle_tweet_own self k tweet Hown). intros H. inversion H.
  - rewrite (handle_tweet_not_mentioned self k tweet Hnot). cbn [effects].
    intros H. apply list_elem_of_singleton in H. discriminate H.
  - rewrite (handle_tweet_mentioned self k tweet Hauthor Hin). cbn zeta.
    pose proof (choose_lyric_logs self k (text tweet)) as Hlogs.
    destruct (choose_lyric self k (text tweet)) as [logged [line|err]];
      cbn [fst snd effects] in *.
    + intros H. apply elem_of_app in H as [H|H].
      { apply Hlogs in H as [m H]. discriminate H. }
      exists line. split; [reflexivity|].
      destruct (send_reply_spec (reply_handles self tweet) line (id tweet))
        as [[Hlen Hsend]|(Hlen & Hcut & Hsend)]; rewrite Hsend in *.
      * apply list_elem_of_singleton in H. injection H as -> ->.
        split; [reflexivity|]. split; [exact Hlen|]. split; [reflexivity|].
        intros Hlong. exfalso. lia.
      * remember (Py.slice_to 140
                    (Py.join " " (reply_handles self tweet) +:+ " " +:+ line))
          as cut eqn:Ecut.
        apply elem_of_cons in H as [H|H]; [discriminate H|].
        apply list_elem_of_singleton in H. injection H as -> ->.
        split; [reflexivity|]. split; [lia|].
        split; [intros Hshort; exfalso; lia|].
        intros _. split; [reflexivity|]. split; [exact Hcut|].
        split; [rewrite Ecut; apply slice_to_prefix|].
        apply elem_of_app. right. apply list_elem_of_here.
    + intros H. apply Hlogs in H as [m H]. discriminate H.
Qed.

(** C2: a reply has at most 140 characters.  A tweet of someone else that
    involves the bot is answered whenever a line is chosen: with the
    handles, a space and the line when those have at most 140 characters;
    with their first 140 characters, after a WARNING record, when they have
    more.  Nothing else is ever handed to the interface. *)
Theorem handle_tweet_reply_at_most_140 (self : PySwizzle) (k : nat)
    (tweet : Tweet) :
  (forall msg reply_to,
     InterfaceTweet msg reply_to ∈ effects (handle_tweet self k tweet) ->
     exists line,
       (choose_lyric self k (text tweet)).2 = Ok line
       /\ reply_to = Some (id tweet)
       /\ String.length msg <= 140
       /\ let reply := Py.join " " (reply_handles self tweet) +:+ " " +:+ line in
          (String.length reply <= 140 -> msg = reply)
          /\ (140 < String.length reply ->
              msg = Py.slice_to 140 reply
              /\ String.length msg = 140
              /\ (exists rest, reply = msg +:+ rest)
              /\ Log WARNING
                   ("ALMOST SENT TOO LONG REPLY " +:+ dquote +:+ reply +:+ dquote)
                 ∈ effects (handle_tweet self k tweet)))
  /\ forall line,
       screen_name (user tweet) <> username self ->
       username self ∈ participants tweet ->
       (choose_lyric self k (text tweet)).2 = Ok line ->
       let reply := Py.join " " (reply_handles self tweet) +:+ " " +:+ line in
       (String.length reply <= 140 ->
        effects (handle_tweet self k tweet)
        = ((choose_lyric self k (text tweet)).1
             ++ [InterfaceTweet reply (Some (id tweet))])%list)
       /\ (140 < String.length reply ->
           effects (handle_tweet self k tweet)
           = ((choose_lyric self k (text tweet)).1
                ++ [Log WARNING
                      ("ALMOST SENT TOO LONG REPLY "
                       +:+ dquote +:+ reply +:+ dquote);
                    InterfaceTweet (Py.slice_to 140 reply) (Some (id tweet))])%list
           /\ String.length (Py.slice_to 140 reply) = 140).
Proof.
  split; [intros msg reply_to; apply handle_tweet_sent_spec|].
  intros line Hauthor Hin Hline reply.
  rewrite (handle_tweet_mentioned self k tweet Hauthor Hin). cbn zeta.
  destruct (choose_lyric self k (text tweet)) as [logged result].
  cbn [fst snd] in *. subst result. cbn [effects].
  destruct (send_reply_spec (reply_handles self tweet) line (id tweet))
    as [[Hlen Hsend]|(Hlen & Hcut & Hsend)]; fold reply in Hlen, Hsend.
  - split; [intros _; rewrite Hsend; reflexivity|]. intros Hlong. exfalso. lia.
  - split; [intros Hshort; exfalso; lia|]. intros _.
    split; [rewrite Hsend; reflexivity|exact Hcut].
Qed.

Lemma handle_tweet_reply_at_most_140_witness :
  effects (handle_tweet (bot_with [long_line]) 0 mention_tweet)
  = ((choose_lyric (bot_with [long_line]) 0 (text mention_tweet)).1
       ++ [Log WARNING
             ("ALMOST SENT TOO LONG REPLY " +:+ dquote
              +:+ (Py.join " " (reply_handles (bot_with [long_line]) mention_tweet)
                   +:+ " " +:+ long_line)
              +:+ dquote);
           InterfaceTweet
             (Py.slice_to 140
                (Py.join " " (reply_handles (bot_with [long_line]) mention_tweet)
                 +:+ " " +:+ long_line))
             (Some (id mention_tweet))])%list
  /\ String.length
       (Py.slice_to 140
          (Py.join " " (reply_handles (bot_with [long_line]) mention_tweet)
           +:+ " " +:+ long_line))
     = 140.
Proof.
  destruct (handle_tweet_reply_at_most_140 (bot_with [long_line]) 0 mention_tweet)
    as [_ Hsent].
  apply (Hsent long_line).
  - discriminate.
  - apply elem_of_list_to_set. vm_compute. apply list_elem_of_here.
  - vm_compute. reflexivity.
  - vm_compute. lia.
Defined.

(** C3: a tweet written by the bot itself, and a tweet where the bot is
    neither mentioned nor the author, are dropped: nothing is sent, nothing
    is raised, and the outcome is the same whatever the corpus and the draw,
    so [choose_lyric] has no part in it. *)
Theorem handle_tweet_discards (self : PySwizzle) (k : nat) (tweet : Tweet) :
  screen_name (user tweet) = username self
  \/ username self ∉ participants tweet ->
  (forall msg reply_to,
     InterfaceTweet msg reply_to ∉ effects (handle_tweet self k tweet))
  /\ raised (handle_tweet self k tweet) = None
  /\ (effects (handle_tweet self k tweet) = []
      \/ effects (handle_tweet self k tweet) = [Log INFO "NOT IN THAT TWEET"])
  /\ (screen_name (user tweet) = username self ->
      handle_tweet self k tweet
      = {| tweet_after := tweet; effects := []; raised := None |})
  /\ forall other k',
       username other = username self ->
       handle_tweet other k' tweet = handle_tweet self k tweet.
Proof.
  intros [Hown|Hnot].
  - rewrite (handle_tweet_own self k tweet Hown). cbn [effects raised].
    split; [intros msg r H; inversion H|]. split; [reflexivity|].
    split; [left; reflexivity|]. split; [reflexivity|].
    intros other k' Hname. apply handle_tweet_own. congruence.
  - rewrite (handle_tweet_not_mentioned self k tweet Hnot). cbn [effects raised].
    split.
    { intros msg r H. apply list_elem_of_singleton in H. discriminate H. }
    split; [reflexivity|]. split; [right; reflexivity|]. split.
    { intros Hown. exfalso. apply Hnot. rewrite <- Hown.
      apply author_participates. }
    intros other k' Hname. apply handle_tweet_not_mentioned. congruence.
Qed.

Lemma handle_tweet_discards_witness :
  (forall msg reply_to,
     InterfaceTweet msg reply_to
     ∉ effects (handle_tweet (bot_with trouble_corpus) 5 other_tweet))
  /\ raised (handle_tweet (bot_with trouble_corpus) 5 other_tweet) = None
  /\ (effects (handle_tweet (bot_with trouble_corpus) 5 other_tweet) = []
      \/ effects (handle_tweet (bot_with trouble_corpus) 5 other_tweet)
         = [Log INFO "NOT IN THAT TWEET"])
  /\ (screen_name (user other_tweet) = username (bot_with trouble_corpus) ->
      handle_tweet (bot_with trouble_corpus) 5 other_tweet
      = {| tweet_after := other_tweet; effects := []; raised := None |})
  /\ forall other k',
       username other = username (bot_with trouble_corpus) ->
       handle_tweet other k' other_tweet
       = handle_tweet (bot_with trouble_corpus) 5 other_tweet.
Proof.
  apply (handle_tweet_discards (bot_with trouble_corpus) 5 other_tweet).
  right. vm_compute. intros H.
  repeat (apply elem_of_cons in H as [H|H]; [discriminate H|]).
  inversion H.
Defined.

(** C10: when the author is not the bot, [handle_tweet] leaves the tweet
    with the author's user record appended to its user mentions, whether the
    tweet is then answered or not; id, text and author are as before. *)
Theorem handle_tweet_appends_author (self : PySwizzle) (k : nat) (tweet : Tweet) :
  screen_name (user tweet) <> username self ->
  let after := tweet_after (handle_tweet self k tweet) in
  user_mentions (entities after)
  = (user_mentions (entities tweet) ++ [user tweet])%list
  /\ id after = id tweet
  /\ text after = text tweet
  /\ user after = user tweet
  /\ after <> tweet.
Proof.
  intros Hauthor after.
  assert (Hafter : after = with_mentions tweet
            (user_mentions (entities tweet) ++ [user tweet])%list).
  { subst after.
    destruct (handle_tweet_cases self tweet) as [Hown|[Hnot|[_ Hin]]].
    - contradiction.
    - rewrite (handle_tweet_not_mentioned self k tweet Hnot). reflexivity.
    - rewrite (handle_tweet_mentioned self k tweet Hauthor Hin). cbn zeta.
      destruct (choose_lyric self k (text tweet)) as [logged [line|err]];
        reflexivity. }
  rewrite Hafter. cbn. repeat split.
  intros Heq. apply (f_equal (fun t => length (user_mentions (entities t)))) in Heq.
  cbn in Heq. rewrite length_app in Heq. cbn in Heq. lia.
Qed.

Lemma handle_tweet_appends_author_witness :
  let after := tweet_after (handle_tweet (bot_with trouble_corpus) 0 mention_tweet) in
  user_mentions (entities after) = [swizzle; bob; alice]
  /\ id after = 99%Z
  /\ text after = "@pyswizzle @bob shake"
  /\ user after = alice
  /\ after <> mention_tweet.
Proof.
  apply (handle_tweet_appends_author (bot_with trouble_corpus) 0 mention_tweet).
  discriminate.
Defined.

(** ** TwitterInterface.__next__ *)

(** The body of [__next__], as the source has it. *)
Lemma next_unfold (self : TwitterInterface) :
  __next__ self
  = match iterator self with
    | [] => (Raise StopIteration, {| iterator := []; upcoming := upcoming self |})
    | n :: rest =>
        if hangup n then
          match open_stream {| iterator := rest; upcoming := upcoming self |} with
          | Raise e => (Raise e, {| iterator := rest; upcoming := [] |})
          | Ok self' => __next__ self'
          end
        else (Ok n, {| iterator := rest; upcoming := upcoming self |})
    end.
Proof.
  destruct self as [it later]. unfold __next__, open_stream. cbn [iterator upcoming].
  destruct later as [|stream later'], it as [|n rest]; try reflexivity;
    cbn [next_on]; destruct (hangup n); reflexivity.
Qed.

Section next_facts.
Implicit Types (it : list Item) (later : list (list Item)).

Lemma next_on_not_hangup later it n self' :
  next_on later it = (Ok n, self') -> hangup n = false.
Proof.
  revert it. induction later as [|stream later IH]; intros [|m rest];
    cbn [next_on]; try discriminate.
  - destruct (hangup m) eqn:E; [discriminate|]. intros [= <- _]. exact E.
  - destruct (hangup m) eqn:E; [apply IH|]. intros [= <- _]. exact E.
Qed.

Lemma next_on_pending later it n self' :
  next_on later it = (Ok n, self') ->
  pending self' < length it + sum_list (length <$> later).
Proof.
  revert it. induction later as [|stream later IH]; intros [|m rest];
    cbn [next_on]; try discriminate.
  - destruct (hangup m); [discriminate|]. intros [= _ <-].
    unfold pending. cbn. lia.
  - destruct (hangup m).
    + intros H%IH. cbn. lia.
    + intros [= _ <-]. unfold pending. cbn. lia.
Qed.
End next_facts.

Lemma for_each_total (fuel : nat) (self : TwitterInterface) :
  pending self < fuel ->
  exists items e, for_each fuel self = Some (items, e).
Proof.
  revert self. induction fuel as [|fuel IH]; intros self Hfuel; [lia|].
  cbn [for_each]. destruct (__next__ self) as [[n|e] self'] eqn:Enext.
  - destruct (IH self') as (items & e & ->); [|eauto].
    apply next_on_pending in Enext. unfold pending in Hfuel. lia.
  - eauto.
Qed.

Lemma for_each_no_hangup (fuel : nat) (self : TwitterInterface)
    (items : list Item) (e : exn) :
  for_each fuel self = Some (items, e) ->
  Forall (fun n => hangup n = false) items.
Proof.
  revert self items e. induction fuel as [|fuel IH]; intros self items e;
    [discriminate|].
  cbn [for_each]. destruct (__next__ self) as [[n|e'] self'] eqn:Enext.
  - destruct (for_each fuel self') as [[items' e'']|] eqn:Erest; [|discriminate].
    intros [= <- _]. constructor.
    + eapply next_on_not_hangup, Enext.
    + eapply IH, Erest.
  - intros [= <- _]. constructor.
Qed.

(** C4: the loop over the interface ends and never sees a hangup notice.
    When the connection delivers A and then hangs up, and the connection
    opened in answer delivers B, the loop sees A, then B, and nothing else. *)
Theorem hangup_never_surfaces (self : TwitterInterface) (fuel : nat) :
  pending self < fuel ->
  exists items e,
    for_each fuel self = Some (items, e)
    /\ Forall (fun n => hangup n = false) items
    /\ forall A B H lost,
         self = {| iterator := A :: H :: lost; upcoming := [[B]] |} ->
         hangup A = false -> hangup H = true -> hangup B = false ->
         items = [A; B] /\ e = StopIteration.
Proof.
  intros Hfuel. destruct (for_each_total fuel self Hfuel) as (items & e & Hrun).
  exists items, e. split; [exact Hrun|].
  split; [eapply for_each_no_hangup, Hrun|].
  intros A B H lost -> HA HH HB.
  unfold pending in Hfuel. cbn in Hfuel.
  destruct fuel as [|[|[|fuel]]]; try lia.
  cbn [for_each] in Hrun. unfold __next__ in Hrun. cbn in Hrun.
  rewrite HA in Hrun. cbn in Hrun. rewrite HH in Hrun. cbn in Hrun.
  rewrite HB in Hrun. cbn in Hrun. injection Hrun as <- <-. split; reflexivity.
Qed.

Lemma hangup_never_surfaces_witness :
  exists items e,
    for_each 4 dropped_stream = Some (items, e)
    /\ Forall (fun n => hangup n = false) items
    /\ forall A B H lost,
         dropped_stream = {| iterator := A :: H :: lost; upcoming := [[B]] |} ->
         hangup A = false -> hangup H = true -> hangup B = false ->
         items = [A; B] /\ e = StopIteration.
Proof.
  apply (hangup_never_surfaces dropped_stream 4). vm_compute. lia.
Defined.

(** * Further properties of the code *)

(** ** Matching *)

Lemma occurs_in_trans (p s t : string) :
  occurs_in p s -> occurs_in s t -> occurs_in p t.
Proof.
  intros (pre & post & ->) (pre' & post' & ->).
  exists (pre' +:+ pre), (post +:+ post').
  rewrite !str_app_assoc. reflexivity.
Qed.

Lemma split_go_nonempty (s cur w : string) :
  w ∈ Py.split_go cur s -> w <> "".
Proof.
  revert cur. induction s as [|c s IH]; intros cur; cbn [Py.split_go].
  - destruct cur; [intros H; inversion H|].
    intros H%list_elem_of_singleton. subst w. discriminate.
  - destruct (Py.isspace c); [|apply IH].
    destruct cur; [apply IH|].
    intros [->|H]%elem_of_cons; [discriminate|]. eapply IH, H.
Qed.

Lemma pieces_of_nonempty (text0 w : string) : w ∈ pieces_of text0 -> w <> "".
Proof.
  unfold pieces_of, Py.split. rewrite elem_of_list_to_set.
  apply split_go_nonempty.
Qed.

Lemma contains_empty_line (p : string) : Py.contains p "" = true -> p = "".
Proof. destruct p; [reflexivity|discriminate]. Qed.

Lemma lower_char_idemp (c : ascii) :
  Py.lower_char (Py.lower_char c) = Py.lower_char c.
Proof.
  destruct c as [[] [] [] [] [] [] [] []]; vm_compute; reflexivity.
Qed.

Lemma lower_idemp (s : string) : Py.lower (Py.lower s) = Py.lower s.
Proof.
  induction s as [|c s IH]; [reflexivity|].
  cbn [Py.lower]. rewrite lower_char_idemp, IH. reflexivity.
Qed.

(** X1: a line's score does not drop when the tweet has more words, nor
    when the line is replaced by one that contains it. *)
Theorem similarity_monotone (pieces pieces' : gset string) (line line' : string) :
  pieces ⊆ pieces' ->
  occurs_in line line' ->
  similarity pieces line <= similarity pieces' line'.
Proof.
  intros Hsub Hocc. rewrite !similarity_size. apply subseteq_size.
  apply elem_of_subseteq. intros p. rewrite !elem_of_filter, !contains_spec.
  intros [Hp Hin]. split; [|apply Hsub, Hin].
  eapply occurs_in_trans; eassumption.
Qed.

Lemma similarity_monotone_witness :
  similarity {[ "shake" ]} "shake it"
  <= similarity {[ "shake"; "off" ]} "shake it off".
Proof.
  apply (similarity_monotone {[ "shake" ]} {[ "shake"; "off" ]}
           "shake it" "shake it off").
  - apply union_subseteq_l.
  - exists "", " off". reflexivity.
Defined.

(** X2: an empty lyric scores 0 for every tweet, since [split] yields no
    empty word. *)
Theorem score_of_empty_line (text0 : string) : score_of text0 "" = 0.
Proof.
  unfold score_of. cbn [Py.lower]. rewrite similarity_size.
  apply size_empty_iff, elem_of_equiv_empty. intros p. rewrite elem_of_filter.
  intros [Hp Hin].
  apply (pieces_of_nonempty text0 p Hin), contains_empty_line, Hp.
Qed.

(** X3: the choice does not depend on the case of the tweet's letters:
    texts with the same lowercase form get the same lines, and the scores
    of a line and of its lowercase form agree. *)
Theorem choose_lyric_ignores_case (self : PySwizzle) (k : nat)
    (text1 text2 : string) :
  Py.lower text1 = Py.lower text2 ->
  choose_lyric self k text1 = choose_lyric self k text2
  /\ choose_lyric self k (Py.lower text1) = choose_lyric self k text1
  /\ forall line, score_of text1 (Py.lower line) = score_of text2 line.
Proof.
  intros Hcase.
  assert (Hp : pieces_of text1 = pieces_of text2).
  { unfold pieces_of. rewrite Hcase. reflexivity. }
  assert (Hl : pieces_of (Py.lower text1) = pieces_of text1).
  { unfold pieces_of. rewrite lower_idemp. reflexivity. }
  split; [|split].
  - unfold choose_lyric. rewrite Hp. reflexivity.
  - unfold choose_lyric. rewrite Hl. reflexivity.
  - intros line. unfold score_of. rewrite lower_idemp, Hp. reflexivity.
Qed.

Lemma choose_lyric_ignores_case_witness :
  choose_lyric (bot_with trouble_corpus) 0 "SHAKE it"
  = choose_lyric (bot_with trouble_corpus) 0 "shake IT"
  /\ choose_lyric (bot_with trouble_corpus) 0 (Py.lower "SHAKE it")
     = choose_lyric (bot_with trouble_corpus) 0 "SHAKE it"
  /\ forall line, score_of "SHAKE it" (Py.lower line) = score_of "shake IT" line.
Proof.
  apply (choose_lyric_ignores_case (bot_with trouble_corpus) 0
           "SHAKE it" "shake IT").
  reflexivity.
Defined.

(** X4: with a corpus of one line that line is the answer to every tweet. *)
Theorem choose_lyric_single_line (self : PySwizzle) (line : string)
    (k : nat) (text0 : string) :
  lyrics self = Some [line] ->
  lyrics_lower self = Some [Py.lower line] ->
  (choose_lyric self k text0).2 = Ok line.
Proof.
  intros Hl Hll.
  destruct (choose_lyric_loaded self [line] text0 Hl Hll)
    as (lines & Hne & Hchar & Hrun); [discriminate|].
  rewrite Hrun. cbn [snd].
  destruct (random_choice_total k lines Hne) as [x Hx]. rewrite Hx.
  apply random_choice_elem, Hchar in Hx as [Hx _].
  apply list_elem_of_singleton in Hx. congruence.
Qed.

Lemma choose_lyric_single_line_witness :
  (choose_lyric (bot_with [long_line]) 7 "no such word").2 = Ok long_line.
Proof.
  apply (choose_lyric_single_line (bot_with [long_line]) long_line 7
           "no such word"); reflexivity.
Defined.

(** X5: when no word of the tweet occurs in any lyric, the logged maximum
    is 0 and every line of the corpus is the answer for some draw. *)
Theorem choose_lyric_no_match (self : PySwizzle) (ls : list string)
    (text0 : string) :
  lyrics self = Some ls ->
  lyrics_lower self = Some (Py.lower <$> ls) ->
  ls <> [] ->
  (forall l, l ∈ ls -> score_of text0 l = 0) ->
  (forall k, (choose_lyric self k text0).1 = [Log INFO "MAX SCORE: 0"])
  /\ forall l, l ∈ ls -> exists k, (choose_lyric self k text0).2 = Ok l.
Proof.
  intros Hl Hll Hne Hzero.
  destruct (choose_lyric_loaded self ls text0 Hl Hll Hne)
    as (lines & _ & Hchar & Hrun).
  assert (Hmax : max_list (score_of text0 <$> ls) = 0).
  { assert (Hin : max_list (score_of text0 <$> ls) ∈ score_of text0 <$> ls).
    { apply max_list_elem_of. destruct ls; [congruence|discriminate]. }
    apply list_elem_of_fmap in Hin as (l & -> & Hin). apply Hzero, Hin. }
  cbn zeta in Hchar, Hrun. rewrite Hmax in Hchar, Hrun. split.
  - intros k. rewrite Hrun. reflexivity.
  - intros l Hin.
    destruct (random_choice_any lines l) as [k Hk]; [apply Hchar; auto|].
    exists k. rewrite Hrun. exact Hk.
Qed.

Lemma choose_lyric_no_match_witness :
  (forall k,
     (choose_lyric (bot_with trouble_corpus) k "").1 = [Log INFO "MAX SCORE: 0"])
  /\ forall l, l ∈ trouble_corpus ->
       exists k, (choose_lyric (bot_with trouble_corpus) k "").2 = Ok l.
Proof.
  apply (choose_lyric_no_match (bot_with trouble_corpus) trouble_corpus "");
    [reflexivity|reflexivity|discriminate|].
  intros l _. unfold score_of. rewrite similarity_size.
  apply size_empty_iff, elem_of_equiv_empty. intros p. rewrite elem_of_filter.
  intros [_ Hin]. apply elem_of_list_to_set in Hin. inversion Hin.
Defined.

(** ** Loading *)

Section strip_facts.
Implicit Types (s t : string) (c x : ascii).

Lemma chars_app s t : chars (s +:+ t) = (chars s ++ chars t)%list.
Proof.
  induction s as [|c s IH]; [reflexivity|].
  rewrite str_app_cons. cbn [chars]. rewrite IH. reflexivity.
Qed.

Lemma lstrip_head s :
  Py.lstrip s = "" \/ exists c t, Py.lstrip s = String c t /\ Py.isspace c = false.
Proof.
  induction s as [|c s IH]; [left; reflexivity|].
  cbn [Py.lstrip]. destruct (Py.isspace c) eqn:E; [exact IH|].
  right. exists c, s. split; [reflexivity|exact E].
Qed.

Lemma rstrip_cons_nonspace c s :
  Py.isspace c = false -> Py.rstrip (String c s) = String c (Py.rstrip s).
Proof.
  intros E. cbn [Py.rstrip]. destruct (Py.rstrip s); [rewrite E|]; reflexivity.
Qed.

Lemma rstrip_idemp s : Py.rstrip (Py.rstrip s) = Py.rstrip s.
Proof.
  induction s as [|c s IH]; [reflexivity|].
  cbn [Py.rstrip]. destruct (Py.rstrip s) as [|d r] eqn:Er.
  - destruct (Py.isspace c) eqn:E; [reflexivity|].
    cbn [Py.rstrip]. rewrite E. reflexivity.
  - change (Py.rstrip (String c (String d r)))
      with (match Py.rstrip (String d r) with
            | "" => if Py.isspace c then "" else String c ""
            | r' => String c r'
            end).
    rewrite IH. reflexivity.
Qed.

Lemma strip_idemp s : Py.strip (Py.strip s) = Py.strip s.
Proof.
  unfold Py.strip. destruct (lstrip_head s) as [->|(c & t & -> & E)].
  - reflexivity.
  - rewrite (rstrip_cons_nonspace c t E). cbn [Py.lstrip]. rewrite E.
    rewrite <- (rstrip_cons_nonspace c t E). apply rstrip_idemp.
Qed.

Lemma rstrip_app_space s c :
  Py.isspace c = true -> Py.rstrip (s +:+ String c "") = Py.rstrip s.
Proof.
  intros E. induction s as [|d s IH].
  - change ("" +:+ String c "") with (String c "").
    cbn [Py.rstrip]. rewrite E. reflexivity.
  - rewrite str_app_cons. cbn [Py.rstrip]. rewrite IH. reflexivity.
Qed.

Lemma lstrip_app_space s c :
  Py.isspace c = true ->
  Py.lstrip (s +:+ String c "")
  = match Py.lstrip s with "" => "" | t => t +:+ String c "" end.
Proof.
  intros E. induction s as [|d s IH].
  - change ("" +:+ String c "") with (String c "").
    cbn [Py.lstrip]. rewrite E. reflexivity.
  - rewrite str_app_cons. cbn [Py.lstrip].
    destruct (Py.isspace d); [exact IH|reflexivity].
Qed.

Lemma strip_app_space s c :
  Py.isspace c = true -> Py.strip (s +:+ String c "") = Py.strip s.
Proof.
  intros E. unfold Py.strip. rewrite (lstrip_app_space s c E).
  destruct (Py.lstrip s) as [|d t]; [reflexivity|].
  apply rstrip_app_space, E.
Qed.

Lemma chars_lstrip s x : x ∈ chars (Py.lstrip s) -> x ∈ chars s.
Proof.
  induction s as [|c s IH]; [intros H; exact H|].
  cbn [Py.lstrip]. destruct (Py.isspace c); [|intros H; exact H].
  intros H. cbn [chars]. apply list_elem_of_further, IH, H.
Qed.

Lemma chars_rstrip s x : x ∈ chars (Py.rstrip s) -> x ∈ chars s.
Proof.
  induction s as [|c s IH]; [intros H; exact H|].
  cbn [Py.rstrip]. destruct (Py.rstrip s) as [|d r].
  - destruct (Py.isspace c); [intros H; inversion H|].
    cbn [chars]. intros H%list_elem_of_singleton. subst x.
    apply list_elem_of_here.
  - cbn [chars] in *. intros [->|H]%elem_of_cons.
    + apply list_elem_of_here.
    + apply list_elem_of_further, IH, H.
Qed.

Lemma chars_strip s x : x ∈ chars (Py.strip s) -> x ∈ chars s.
Proof. intros H. apply chars_lstrip, chars_rstrip, H. Qed.

Lemma rstrip_empty_lstrip s : Py.rstrip s = "" -> Py.lstrip s = "".
Proof.
  induction s as [|c s IH]; [reflexivity|].
  cbn [Py.rstrip Py.lstrip]. destruct (Py.rstrip s); [|discriminate].
  destruct (Py.isspace c); [intros _; apply IH; reflexivity|discriminate].
Qed.

(** A line of a file has no newline but, at most, its last character. *)
Lemma iter_lines_go_line s cur l :
  "010"%char ∉ chars cur ->
  l ∈ Py.iter_lines_go cur s ->
  exists body, ("010"%char ∉ chars body) /\ (l = body \/ l = body +:+ newline).
Proof.
  revert cur. induction s as [|c s IH]; intros cur Hcur; cbn [Py.iter_lines_go].
  - destruct cur as [|d cur'] eqn:Ecur; [intros H; inversion H|].
    intros H%list_elem_of_singleton. subst l. eauto.
  - destruct (ascii_dec c "010") as [->|Hc].
    + intros [->|H]%elem_of_cons; [exists cur; auto|].
      apply (IH ""); [intros H'; inversion H'|exact H].
    + apply IH. rewrite chars_app. cbn [chars].
      intros [H|H%list_elem_of_singleton]%elem_of_app; [auto|congruence].
Qed.
End strip_facts.

(** X6: a loaded lyric has no whitespace at either end, so stripping it
    changes nothing, and it holds no newline. *)
Theorem load_lyrics_stripped (self loaded : PySwizzle)
    (fs : string -> option string) (filename : string) (ls : list string) :
  load_lyrics self fs filename = Ok loaded ->
  lyrics loaded = Some ls ->
  forall l, l ∈ ls -> Py.strip l = l /\ "010"%char ∉ chars l.
Proof.
  intros Hload Hls l Hin.
  destruct (load_lyrics_inv _ _ _ _ Hload) as [content Hfs].
  rewrite (load_lyrics_ok self fs filename content Hfs) in Hload.
  injection Hload as <-. cbn [lyrics] in Hls. injection Hls as <-.
  apply list_elem_of_fmap in Hin as (l0 & -> & Hin).
  apply list_elem_of_filter in Hin as [_ Hin].
  split; [apply strip_idemp|].
  destruct (iter_lines_go_line content "" l0) as (body & Hbody & [->| ->]);
    [intros H; inversion H|exact Hin| |].
  - intros H%chars_strip. contradiction.
  - unfold newline. rewrite strip_app_space by reflexivity.
    intros H%chars_strip. contradiction.
Qed.

Lemma load_lyrics_stripped_witness :
  Py.strip "shake it off" = "shake it off"
  /\ "010"%char ∉ chars "shake it off".
Proof.
  apply (load_lyrics_stripped fresh_bot (bot_with trouble_corpus)
           (one_file "taylor.txt" trouble_file) "taylor.txt" trouble_corpus);
    [vm_compute; reflexivity|reflexivity|].
  do 2 apply list_elem_of_further. apply list_elem_of_here.
Defined.

(** X7: a line of the file that is all whitespace, other than a bare
    newline, is not left out: it puts the empty string into the corpus. *)
Theorem load_lyrics_whitespace_line (self : PySwizzle)
    (fs : string -> option string) (filename content l : string) :
  fs filename = Some content ->
  l ∈ Py.iter_lines content ->
  l <> newline ->
  Py.rstrip l = "" ->
  exists loaded ls,
    load_lyrics self fs filename = Ok loaded
    /\ lyrics loaded = Some ls
    /\ "" ∈ ls.
Proof.
  intros Hfs Hin Hne Hblank. eexists _, _.
  split; [apply (load_lyrics_ok self fs filename content Hfs)|].
  split; [reflexivity|].
  apply list_elem_of_fmap. exists l. split.
  - unfold Py.strip. rewrite (rstrip_empty_lstrip l Hblank). reflexivity.
  - apply list_elem_of_filter. split; assumption.
Qed.

Lemma load_lyrics_whitespace_line_witness :
  exists loaded ls,
    load_lyrics fresh_bot (one_file "taylor.txt" blank_line_file) "taylor.txt"
    = Ok loaded
    /\ lyrics loaded = Some ls
    /\ "" ∈ ls.
Proof.
  apply (load_lyrics_whitespace_line fresh_bot
           (one_file "taylor.txt" blank_line_file) "taylor.txt"
           blank_line_file (" " +:+ newline)).
  - reflexivity.
  - vm_compute. apply list_elem_of_further, list_elem_of_here.
  - discriminate.
  - reflexivity.
Defined.

(** ** Replying *)

Lemma posted_app (l1 l2 : list effect) :
  posted (l1 ++ l2) = (posted l1 ++ posted l2)%list.
Proof.
  induction l1 as [|[lvl m|m r] l1 IH]; [reflexivity| |]; cbn [posted app].
  - exact IH.
  - rewrite IH. reflexivity.
Qed.

Lemma posted_logs (l : list effect) :
  (forall e, e ∈ l -> exists m, e = Log INFO m) -> posted l = [].
Proof.
  induction l as [|e l IH]; [reflexivity|]. intros H.
  destruct (H e) as [m ->]; [apply list_elem_of_here|].
  cbn [posted]. apply IH. intros e' He'. apply H, list_elem_of_further, He'.
Qed.

Lemma posted_send_reply (usernames : list string) (line : string) (reply_to : Z) :
  exists msg,
    posted (send_reply usernames line reply_to)
    = [StatusesUpdate msg (Some reply_to)]
    /\ String.length msg <= 140.
Proof.
  destruct (send_reply_spec usernames line reply_to)
    as [[Hlen ->]|(Hlen & Hcut & ->)]; eexists; (split; [reflexivity|]); lia.
Qed.

Lemma participants_with_author (tweet : Tweet) :
  participants
    (with_mentions tweet (user_mentions (entities tweet) ++ [user tweet])%list)
  = participants tweet.
Proof.
  unfold participants. cbn [with_mentions entities user_mentions user].
  apply set_eq. intros u. rewrite !elem_of_list_to_set, !list_elem_of_fmap.
  split; intros (x & -> & Hx); exists x; (split; [reflexivity|]);
    rewrite ?elem_of_app in *; tauto.
Qed.

(** X8: the handles a reply starts with are pairwise different; each is
    "@" and a participant other than the bot; the author's handle is among
    them and the bot's own never is. *)
Theorem reply_handles_spec (self : PySwizzle) (tweet : Tweet) :
  screen_name (user tweet) <> username self ->
  NoDup (reply_handles self tweet)
  /\ ("@" +:+ screen_name (user tweet)) ∈ reply_handles self tweet
  /\ (forall h, h ∈ reply_handles self tweet <->
        exists u, h = "@" +:+ u /\ u ∈ participants tweet /\ u <> username self)
  /\ forall h, h ∈ reply_handles self tweet -> h <> "@" +:+ username self.
Proof.
  intros Hauthor.
  assert (Hchar : forall h, h ∈ reply_handles self tweet <->
            exists u, h = "@" +:+ u /\ u ∈ participants tweet /\ u <> username self).
  { intros h. unfold reply_handles. rewrite list_elem_of_fmap.
    split; intros (u & -> & Hu); exists u; (split; [reflexivity|]).
    - apply list_elem_of_filter in Hu as [Hne Hu].
      apply elem_of_elements in Hu. auto.
    - apply list_elem_of_filter. destruct Hu as [Hu Hne].
      split; [exact Hne|apply elem_of_elements, Hu]. }
  split; [|split; [|split; [exact Hchar|]]].
  - unfold reply_handles. apply NoDup_fmap_2.
    + intros u v H. injection H as H. exact H.
    + apply NoDup_filter, NoDup_elements.
  - apply Hchar. exists (screen_name (user tweet)).
    split; [reflexivity|]. split; [apply author_participates|exact Hauthor].
  - intros h (u & -> & _ & Hne)%Hchar H. injection H as H. contradiction.
Qed.

Lemma reply_handles_spec_witness :
  NoDup (reply_handles (bot_with trouble_corpus) mention_tweet)
  /\ ("@" +:+ screen_name (user mention_tweet))
     ∈ reply_handles (bot_with trouble_corpus) mention_tweet
  /\ (forall h, h ∈ reply_handles (bot_with trouble_corpus) mention_tweet <->
        exists u, h = "@" +:+ u /\ u ∈ participants mention_tweet
                  /\ u <> username (bot_with trouble_corpus))
  /\ forall h, h ∈ reply_handles (bot_with trouble_corpus) mention_tweet ->
       h <> "@" +:+ username (bot_with trouble_corpus).
Proof.
  apply (reply_handles_spec (bot_with trouble_corpus) mention_tweet).
  discriminate.
Defined.

(** X9: one call of [handle_tweet] makes at most one call of the service.
    It makes one exactly when the author is not the bot, the bot is a
    participant and [choose_lyric] returns; the status then has at most 140
    characters and is threaded under the tweet that is answered. *)
Theorem handle_tweet_posts (self : PySwizzle) (k : nat) (tweet : Tweet) :
  (exists msg line,
     posted (effects (handle_tweet self k tweet))
     = [StatusesUpdate msg (Some (id tweet))]
     /\ String.length msg <= 140
     /\ screen_name (user tweet) <> username self
     /\ username self ∈ participants tweet
     /\ (choose_lyric self k (text tweet)).2 = Ok line)
  \/ (posted (effects (handle_tweet self k tweet)) = []
      /\ (screen_name (user tweet) = username self
          \/ username self ∉ participants tweet
          \/ exists e, (choose_lyric self k (text tweet)).2 = Raise e)).
Proof.
  destruct (handle_tweet_cases self tweet) as [Hown|[Hnot|[Hauthor Hin]]].
  - right. rewrite (handle_tweet_own self k tweet Hown). split; [reflexivity|auto].
  - right. rewrite (handle_tweet_not_mentioned self k tweet Hnot).
    split; [reflexivity|auto].
  - rewrite (handle_tweet_mentioned self k tweet Hauthor Hin). cbn zeta.
    pose proof (choose_lyric_logs self k (text tweet)) as Hlogs.
    destruct (choose_lyric self k (text tweet)) as [logged [line|err]];
      cbn [fst snd effects] in *.
    + left.
      destruct (posted_send_reply (reply_handles self tweet) line (id tweet))
        as (msg & Hmsg & Hlen).
      exists msg, line. rewrite posted_app, (posted_logs logged Hlogs), Hmsg.
      repeat split; auto.
    + right. split; [apply posted_logs, Hlogs|eauto].
Qed.

(** X10: [handle_tweet] raises exactly the exception of [choose_lyric], and
    only for a tweet it sets out to answer. *)
Theorem handle_tweet_raises (self : PySwizzle) (k : nat) (tweet : Tweet)
    (e : exn) :
  raised (handle_tweet self k tweet) = Some e
  <-> (screen_name (user tweet) <> username self
       /\ username self ∈ participants tweet
       /\ (choose_lyric self k (text tweet)).2 = Raise e).
Proof.
  destruct (handle_tweet_cases self tweet) as [Hown|[Hnot|[Hauthor Hin]]].
  - rewrite (handle_tweet_own self k tweet Hown). cbn [raised].
    split; [discriminate|]. intros (H & _). contradiction.
  - rewrite (handle_tweet_not_mentioned self k tweet Hnot). cbn [raised].
    split; [discriminate|]. intros (_ & H & _). contradiction.
  - rewrite (handle_tweet_mentioned self k tweet Hauthor Hin). cbn zeta.
    destruct (choose_lyric self k (text tweet)) as [logged [line|err]];
      cbn [snd raised].
    + split; [discriminate|]. intros (_ & _ & H). discriminate H.
    + split.
      * intros [= ->]. auto.
      * intros (_ & _ & [= ->]). reflexivity.
Qed.

(** X11: handling the tweet object a second time logs and sends what the
    first time did, although the author has by then been appended to its
    mentions, and appends the author once more. *)
Theorem handle_tweet_again (self : PySwizzle) (k : nat) (tweet : Tweet) :
  let once := handle_tweet self k tweet in
  let twice := handle_tweet self k (tweet_after once) in
  effects twice = effects once
  /\ raised twice = raised once
  /\ (screen_name (user tweet) <> username self ->
      user_mentions (entities (tweet_after twice))
      = (user_mentions (entities tweet) ++ [user tweet; user tweet])%list).
Proof.
  cbn zeta.
  set (tweet' := with_mentions tweet
                   (user_mentions (entities tweet) ++ [user tweet])%list).
  assert (Hp : participants tweet' = participants tweet)
    by apply participants_with_author.
  assert (Hh : reply_handles self tweet' = reply_handles self tweet).
  { unfold reply_handles. rewrite Hp. reflexivity. }
  destruct (handle_tweet_cases self tweet) as [Hown|[Hnot|[Hauthor Hin]]].
  - rewrite (handle_tweet_own self k tweet Hown). cbn [tweet_after].
    rewrite (handle_tweet_own self k tweet Hown).
    split; [reflexivity|]. split; [reflexivity|]. intros H. contradiction.
  - rewrite (handle_tweet_not_mentioned self k tweet Hnot). cbn [tweet_after].
    fold tweet'. rewrite (handle_tweet_not_mentioned self k tweet')
      by (rewrite Hp; exact Hnot).
    split; [reflexivity|]. split; [reflexivity|]. intros _.
    cbn. rewrite <- app_assoc. reflexivity.
  - assert (Hafter : tweet_after (handle_tweet self k tweet) = tweet').
    { rewrite (handle_tweet_mentioned self k tweet Hauthor Hin). cbn zeta.
      destruct (choose_lyric self k (text tweet)) as [logged [line|err]];
        reflexivity. }
    rewrite Hafter.
    rewrite (handle_tweet_mentioned self k tweet' Hauthor)
      by (rewrite Hp; exact Hin).
    rewrite (handle_tweet_mentioned self k tweet Hauthor Hin). cbn zeta.
    rewrite Hh. change (text tweet') with (text tweet).
    change (id tweet') with (id tweet).
    destruct (choose_lyric self k (text tweet)) as [logged [line|err]];
      (split; [reflexivity|]); (split; [reflexivity|]); intros _;
      cbn; rewrite <- app_assoc; reflexivity.
Qed.



(** ** The stream *)

Lemma before_hangup_no_hangup (it : list Item) :
  hangs_up it = false -> before_hangup it = it.
Proof.
  induction it as [|n rest IH]; [reflexivity|]. cbn [hangs_up before_hangup].
  intros [Hn Hrest]%orb_false_iff. rewrite Hn, (IH Hrest). reflexivity.
Qed.

(** One step of [__next__] against what the connections deliver. *)
Lemma next_on_delivered (later : list (list Item)) (it : list Item) :
  match next_on later it with
  | (Ok n, self') =>
      exists items,
        delivered later it = (n :: items, (delivered (upcoming self') (iterator self')).2)
        /\ (delivered (upcoming self') (iterator self')).1 = items
  | (Raise e, _) => delivered later it = ([], e)
  end.
Proof.
  revert it. induction later as [|stream later IH]; intros [|n rest];
    try reflexivity.
  - cbn [next_on]. destruct (hangup n) eqn:Hn.
    + cbn [delivered hangs_up before_hangup]. rewrite Hn. reflexivity.
    + cbn [iterator upcoming delivered hangs_up before_hangup].
      rewrite Hn. cbn [orb]. destruct (hangs_up rest) eqn:Hrest.
      * eexists. split; reflexivity.
      * eexists. split; reflexivity.
  - cbn [next_on]. destruct (hangup n) eqn:Hn.
    + specialize (IH stream).
      assert (Hd : delivered (stream :: later) (n :: rest) = delivered later stream).
      { cbn [delivered hangs_up before_hangup]. rewrite Hn. cbn [orb app].
        destruct (delivered later stream). reflexivity. }
      rewrite Hd. exact IH.
    + cbn [iterator upcoming].
      assert (Hd : delivered (stream :: later) (n :: rest)
                   = (n :: (delivered (stream :: later) rest).1,
                      (delivered (stream :: later) rest).2)).
      { cbn [delivered hangs_up before_hangup]. rewrite Hn. cbn [orb].
        destruct (hangs_up rest); [|reflexivity].
        destruct (delivered later stream). reflexivity. }
      rewrite Hd. eexists. split; reflexivity.
Qed.

Lemma for_each_on (fuel : nat) (self : TwitterInterface) :
  pending self < fuel ->
  for_each fuel self = Some (delivered (upcoming self) (iterator self)).
Proof.
  revert self. induction fuel as [|fuel IH]; intros self Hfuel; [lia|].
  cbn [for_each]. pose proof (next_on_delivered (upcoming self) (iterator self)) as Hstep.
  unfold __next__. destruct (next_on (upcoming self) (iterator self))
    as [[n|e] self'] eqn:Enext.
  - destruct Hstep as (items & Hd & Hitems).
    rewrite IH by (apply next_on_pending in Enext; unfold pending in Hfuel; lia).
    rewrite Hd. destruct (delivered (upcoming self') (iterator self')) as [xs e'].
    cbn [fst snd] in *. subst items. reflexivity.
  - rewrite Hstep. reflexivity.
Qed.

(** The depth of the recursion *)

Lemma need_pos (later : list (list Item)) (it : list Item) : 1 <= need later it.
Proof.
  destruct later, it as [|n rest]; cbn [need]; try lia;
    destruct (hangup n); lia.
Qed.

Lemma need_le_hangup (later : list (list Item)) (it : list Item) :
  need later it <= need later [Hangup].
Proof.
  destruct later, it as [|n rest]; cbn [need Hangup hangup]; try lia;
    destruct (hangup n); lia.
Qed.

Lemma calm_need (depth : nat) (later : list (list Item)) (it : list Item) :
  calm depth later = true -> need later it <= depth.
Proof.
  intros Hcalm. etrans; [apply need_le_hangup|].
  destruct later; cbn [calm] in Hcalm;
    apply andb_true_iff in Hcalm as [H%Nat.leb_le _]; exact H.
Qed.

Lemma calm_tail (depth : nat) (stream : list Item) (later : list (list Item)) :
  calm depth (stream :: later) = true -> calm depth later = true.
Proof. cbn [calm]. intros [_ H]%andb_true_iff. exact H. Qed.

(** With the activations it needs, the bounded [__next__] is the unbounded
    one; with fewer it raises RecursionError. *)
Lemma next_within_fits (depth : nat) (later : list (list Item)) (it : list Item) :
  need later it <= depth -> next_within depth later it = next_on later it.
Proof.
  revert later it. induction depth as [|depth IH]; intros later it Hneed.
  - pose proof (need_pos later it). lia.
  - destruct later as [|stream later], it as [|n rest];
      cbn [need] in Hneed; cbn [next_within next_on]; try reflexivity;
      destruct (hangup n); try reflexivity.
    apply IH. lia.
Qed.

Lemma next_within_overflow (depth : nat) (later : list (list Item))
    (it : list Item) :
  depth < need later it -> (next_within depth later it).1 = Raise RecursionError.
Proof.
  revert later it. induction depth as [|depth IH]; intros later it Hneed;
    [reflexivity|].
  destruct later as [|stream later], it as [|n rest];
    cbn [need] in Hneed; cbn [next_within]; try lia;
    destruct (hangup n); try lia.
  apply IH. lia.
Qed.

Lemma next_on_calm (depth : nat) (later : list (list Item)) (it : list Item)
    (r : result Item) (self' : TwitterInterface) :
  next_on later it = (r, self') ->
  calm depth later = true -> calm depth (upcoming self') = true.
Proof.
  revert it. induction later as [|stream later IH]; intros [|n rest];
    cbn [next_on].
  - intros [= _ <-] H. exact H.
  - destruct (hangup n); intros [= _ <-] H; exact H.
  - intros [= _ <-] H. exact H.
  - destruct (hangup n).
    + intros Hnext Hcalm. eapply IH; [exact Hnext|]. eapply calm_tail, Hcalm.
    + intros [= _ <-] H. exact H.
Qed.

Lemma for_each_bounded_calm (depth fuel : nat) (self : TwitterInterface) :
  calm depth (upcoming self) = true ->
  for_each_bounded depth fuel self = for_each fuel self.
Proof.
  revert self. induction fuel as [|fuel IH]; intros self Hcalm; [reflexivity|].
  cbn [for_each_bounded for_each]. unfold next_bounded, __next__.
  rewrite (next_within_fits depth _ _ (calm_need depth _ (iterator self) Hcalm)).
  destruct (next_on (upcoming self) (iterator self)) as [[n|e] self'] eqn:Enext;
    [|reflexivity].
  rewrite (IH self' (next_on_calm depth _ _ _ _ Enext Hcalm)). reflexivity.
Qed.

(** Whatever the depth, the loop is handed no hangup notice. *)
Lemma next_within_not_hangup (depth : nat) (later : list (list Item))
    (it : list Item) (n : Item) (self' : TwitterInterface) :
  next_within depth later it = (Ok n, self') -> hangup n = false.
Proof.
  revert later it. induction depth as [|depth IH]; intros later it;
    [discriminate|].
  destruct it as [|m rest]; cbn [next_within]; [discriminate|].
  destruct (hangup m) eqn:E.
  - destruct later as [|stream later]; [discriminate|]. apply IH.
  - intros [= <- _]. exact E.
Qed.

Lemma for_each_bounded_no_hangup (depth fuel : nat) (self : TwitterInterface)
    (items : list Item) (e : exn) :
  for_each_bounded depth fuel self = Some (items, e) ->
  Forall (fun n => hangup n = false) items.
Proof.
  revert self items e. induction fuel as [|fuel IH]; intros self items e;
    [discriminate|].
  cbn [for_each_bounded].
  destruct (next_bounded depth self) as [[n|e'] self'] eqn:Enext.
  - destruct (for_each_bounded depth fuel self') as [[items' e'']|] eqn:Erest;
      [|discriminate].
    intros [= <- _]. constructor.
    + eapply next_within_not_hangup, Enext.
    + eapply IH, Erest.
  - intros [= <- _]. constructor.
Qed.

(** X13: when no burst of back-to-back hangups is deeper than the stack
    allows, the loop over the live interface sees, of each connection in
    turn, the records that come before its first hangup notice; what a
    connection holds after the notice is never seen, and the loop ends
    normally when a connection ends without a notice.  When the first call
    meets a deeper burst, the loop sees nothing and ends with
    RecursionError. *)
Theorem for_each_delivers (depth : nat) (self : TwitterInterface) (fuel : nat) :
  pending self < fuel ->
  (calm depth (upcoming self) = true ->
   for_each_bounded depth fuel self
   = Some (delivered (upcoming self) (iterator self))
   /\ (hangs_up (iterator self) = false ->
       for_each_bounded depth fuel self = Some (iterator self, StopIteration))
   /\ forall seen H lost stream later,
        self = {| iterator := (seen ++ H :: lost)%list;
                  upcoming := stream :: later |} ->
        hangs_up seen = false -> hangup H = true ->
        for_each_bounded depth fuel self
        = Some ((seen ++ (delivered later stream).1)%list,
                (delivered later stream).2))
  /\ (depth < need (upcoming self) (iterator self) ->
      for_each_bounded depth fuel self = Some ([], RecursionError)).
Proof.
  intros Hfuel. split.
  - intros Hcalm. rewrite (for_each_bounded_calm depth fuel self Hcalm).
    rewrite (for_each_on fuel self Hfuel).
    split; [reflexivity|]. split.
    + intros Hno. destruct (iterator self) as [|n rest] eqn:Eit;
        destruct (upcoming self); cbn [delivered]; rewrite ?Hno; reflexivity.
    + intros seen H lost stream later -> Hseen HH. cbn [iterator upcoming].
      assert (Hup : hangs_up (seen ++ H :: lost) = true).
      { clear Hfuel Hseen Hcalm.
        induction seen as [|n seen IH]; cbn [app hangs_up].
        - rewrite HH. reflexivity.
        - rewrite IH. apply orb_true_r. }
      assert (Hbefore : before_hangup (seen ++ H :: lost) = seen).
      { clear Hfuel Hup Hcalm.
        induction seen as [|n seen IH]; cbn [app before_hangup].
        - rewrite HH. reflexivity.
        - cbn [hangs_up] in Hseen. apply orb_false_iff in Hseen as [Hn Hs].
          rewrite Hn, (IH Hs). reflexivity. }
      cbn [delivered]. rewrite Hup, Hbefore.
      destruct (delivered later stream). reflexivity.
  - intros Hdeep. destruct fuel as [|fuel]; [lia|]. cbn [for_each_bounded].
    pose proof (next_within_overflow depth _ _ Hdeep) as Hover.
    unfold next_bounded.
    destruct (next_within depth (upcoming self) (iterator self)) as [r self'].
    cbn [fst] in Hover. subst r. reflexivity.
Qed.

Lemma for_each_delivers_witness :
  for_each_bounded 2 4 dropped_stream = Some ([item_A; item_B], StopIteration)
  /\ for_each_bounded 1 4 hangup_first = Some ([], RecursionError).
Proof.
  split.
  - destruct (for_each_delivers 2 dropped_stream 4) as [Hcalm _];
      [vm_compute; lia|].
    destruct Hcalm as [Hall _]; [reflexivity|]. exact Hall.
  - destruct (for_each_delivers 1 hangup_first 4) as [_ Hdeep];
      [vm_compute; lia|].
    apply Hdeep. vm_compute. lia.
Defined.

(** ** The main loop *)

Lemma posted_handle_tweet (self : PySwizzle) (k : nat) (tweet : Tweet)
    (c : api_call) :
  c ∈ posted (effects (handle_tweet self k tweet)) ->
  in_reply_to c = Some (id tweet) /\ String.length (status_of c) <= 140.
Proof.
  destruct (handle_tweet_cases self tweet) as [Hown|[Hnot|[Hauthor Hin]]].
  - rewrite (handle_tweet_own self k tweet Hown). intros H. inversion H.
  - rewrite (handle_tweet_not_mentioned self k tweet Hnot). intros H. inversion H.
  - rewrite (handle_tweet_mentioned self k tweet Hauthor Hin). cbn zeta.
    pose proof (choose_lyric_logs self k (text tweet)) as Hlogs.
    destruct (choose_lyric self k (text tweet)) as [logged [line|err]];
      cbn [fst effects] in *.
    + rewrite posted_app, (posted_logs logged Hlogs). cbn [app].
      destruct (posted_send_reply (reply_handles self tweet) line (id tweet))
        as (msg & -> & Hlen).
      intros H%list_elem_of_singleton. subst c. split; [reflexivity|exact Hlen].
    + rewrite (posted_logs logged Hlogs). intros H. inversion H.
Qed.

Section run_facts.
Variable pformat : Item -> string.

Lemma run_body_posted (self : PySwizzle) (k : nat) (n : Item) (c : api_call) :
  c ∈ posted (run_body pformat self ∅ k n).1 ->
  (exists parent, in_reply_to c = Some parent)
  /\ String.length (status_of c) <= 140.
Proof.
  unfold run_body. destruct (event n) as [kind|].
  - rewrite lookup_empty. intros H. inversion H.
  - destruct (message n) as [t|]; [|intros H; inversion H].
    cbn [fst posted]. intros [Hr Hlen]%posted_handle_tweet. eauto.
Qed.

Lemma run_loop_posted {It : Type} (next : It -> result Item * It)
    (self : PySwizzle) (draw : nat -> nat) (fuel i : nat) (it : It)
    (done : list effect) (ending : option exn) (c : api_call) :
  run_loop pformat next self ∅ draw fuel i it = Some (done, ending) ->
  c ∈ posted done ->
  (exists parent, in_reply_to c = Some parent)
  /\ String.length (status_of c) <= 140.
Proof.
  revert i it done ending. induction fuel as [|fuel IH];
    intros i it done ending; [discriminate|].
  cbn [run_loop]. destruct (next it) as [[n|e] it'].
  - pose proof (run_body_posted self (draw i) n c) as Hbody.
    destruct (run_body pformat self ∅ (draw i) n) as [first [e|]];
      cbn [fst] in Hbody.
    + intros [= <- _]. exact Hbody.
    + destruct (run_loop pformat next self ∅ draw fuel (S i) it')
        as [[more ending']|] eqn:Erest; [|discriminate].
      intros [= <- _]. rewrite posted_app.
      intros [H|H]%elem_of_app; [apply Hbody, H|].
      eapply IH; [exact Erest|exact H].
  - destruct e; intros [= <- _] H; inversion H.
Qed.

Lemma run_body_unanswerable (self : PySwizzle) (k : nat) (n : Item) :
  answerable self n = None ->
  (run_body pformat self ∅ k n).2 = None
  /\ posted (run_body pformat self ∅ k n).1 = [].
Proof.
  unfold answerable, run_body. destruct (event n) as [kind|].
  - rewrite lookup_empty. intros _. split; reflexivity.
  - destruct (message n) as [t|]; [|intros _; split; reflexivity].
    case_decide as Hans; [discriminate|]. intros _. cbn [fst snd posted].
    destruct (handle_tweet_cases self t) as [Hown|[Hnot|Hboth]].
    + rewrite (handle_tweet_own self k t Hown). split; reflexivity.
    + rewrite (handle_tweet_not_mentioned self k t Hnot). split; reflexivity.
    + contradiction.
Qed.

Lemma run_body_answerable (self : PySwizzle) (k : nat) (n : Item) (t : Tweet) :
  answerable self n = Some t ->
  run_body pformat self ∅ k n
  = (Log DEBUG ("TWEET:" +:+ pformat n)
       :: Log INFO ("HANDLING TWEET: @" +:+ screen_name (user t) +:+ ": "
                    +:+ dquote +:+ text t +:+ dquote)
       :: effects (handle_tweet self k t),
     raised (handle_tweet self k t))
  /\ screen_name (user t) <> username self
  /\ username self ∈ participants t.
Proof.
  unfold answerable, run_body. destruct (event n) as [kind|]; [discriminate|].
  destruct (message n) as [t'|]; [|discriminate].
  case_decide as Hans; [|discriminate]. intros [= ->].
  split; [reflexivity|exact Hans].
Qed.

Lemma run_body_loaded (self : PySwizzle) (ls : list string) (k : nat) (n : Item) :
  lyrics self = Some ls ->
  lyrics_lower self = Some (Py.lower <$> ls) ->
  ls <> [] ->
  (run_body pformat self ∅ k n).2 = None
  /\ in_reply_to <$> posted (run_body pformat self ∅ k n).1
     = match answerable self n with
       | Some t => [Some (id t)]
       | None => []
       end.
Proof.
  intros Hl Hll Hne. destruct (answerable self n) as [t|] eqn:Hans.
  - destruct (run_body_answerable self k n t Hans) as (-> & Hauthor & Hin).
    cbn [fst snd posted].
    rewrite (handle_tweet_mentioned self k t Hauthor Hin). cbn zeta.
    destruct (choose_lyric_loaded self ls (text t) Hl Hll Hne)
      as (lines & Hlines & _ & Hrun).
    destruct (random_choice_total k lines Hlines) as [line Hline].
    rewrite Hrun, Hline. cbn [effects raised app posted].
    split; [reflexivity|].
    destruct (posted_send_reply (reply_handles self t) line (id t))
      as (msg & -> & _). reflexivity.
  - destruct (run_body_unanswerable self k n Hans) as [-> ->].
    split; reflexivity.
Qed.

Lemma run_loop_loaded (self : PySwizzle) (ls : list string)
    (draw : nat -> nat) (items : list Item) (fuel i : nat) :
  lyrics self = Some ls ->
  lyrics_lower self = Some (Py.lower <$> ls) ->
  ls <> [] ->
  length items < fuel ->
  exists done,
    run_loop pformat list_next self ∅ draw fuel i items = Some (done, None)
    /\ in_reply_to <$> posted done
       = (fun t => Some (id t)) <$> omap (answerable self) items.
Proof.
  intros Hl Hll Hne. revert fuel i.
  induction items as [|n rest IH]; intros fuel i Hfuel;
    (destruct fuel as [|fuel]; [cbn in Hfuel; lia|]); cbn [run_loop list_next].
  - exists []. split; reflexivity.
  - destruct (run_body_loaded self ls (draw i) n Hl Hll Hne) as [Hr Hp].
    destruct (run_body pformat self ∅ (draw i) n) as [first r].
    cbn [fst snd] in Hr, Hp. subst r.
    destruct (IH fuel (S i)) as (more & -> & Hmore); [cbn in Hfuel; lia|].
    eexists. split; [reflexivity|].
    rewrite posted_app, fmap_app, Hp, Hmore. cbn [omap list_omap].
    destruct (answerable self n); reflexivity.
Qed.

Lemma run_loop_live (self : PySwizzle) (events : gmap string callback)
    (draw : nat -> nat) (fuel i : nat) (live : TwitterInterface) :
  (delivered (upcoming live) (iterator live)).2 = StopIteration ->
  run_loop pformat __next__ self events draw fuel i live
  = run_loop pformat list_next self events draw fuel i
      (delivered (upcoming live) (iterator live)).1.
Proof.
  revert i live. induction fuel as [|fuel IH]; intros i live Hend;
    [reflexivity|].
  cbn [run_loop].
  change (__next__ live) with (next_on (upcoming live) (iterator live)).
  pose proof (next_on_delivered (upcoming live) (iterator live)) as Hstep.
  destruct (next_on (upcoming live) (iterator live)) as [[n|e] live'].
  - destruct Hstep as (items & Hd & Hitems). rewrite Hd in *. cbn [fst snd] in *.
    cbn [list_next]. rewrite (IH (S i) live' Hend), Hitems. reflexivity.
  - rewrite Hstep in *. cbn [fst snd] in *. subst e. reflexivity.
Qed.
End run_facts.

(** X14: every call of the service that a run makes, over any interface,
    carries a status of at most 140 characters and names a tweet it
    replies to. *)
Theorem run_posts_short (pformat : Item -> string) {It : Type}
    (next : It -> result Item * It) (self : PySwizzle)
    (fs : string -> option string) (draw : nat -> nat) (fuel : nat) (it : It)
    (done : list effect) (ending : option exn) (c : api_call) :
  run pformat next self ∅ fs draw fuel it = Some (done, ending) ->
  c ∈ posted done ->
  (exists parent, in_reply_to c = Some parent)
  /\ String.length (status_of c) <= 140.
Proof.
  unfold run. destruct (lyrics self).
  - apply run_loop_posted.
  - destruct (load_lyrics self fs "taylor.txt") as [loaded|e].
    + apply run_loop_posted.
    + intros [= <- _] H. inversion H.
Qed.

(** X15: with a loaded, non-empty corpus a run over a list of records ends
    normally and answers exactly the records that have no event key and
    carry a tweet of someone else that involves the bot: one call of the
    service for each, in the order of the stream, threaded under that
    tweet. *)
Theorem run_answers_mentions (pformat : Item -> string) (self : PySwizzle)
    (ls : list string) (fs : string -> option string) (draw : nat -> nat)
    (fuel : nat) (items : list Item) :
  lyrics self = Some ls ->
  lyrics_lower self = Some (Py.lower <$> ls) ->
  ls <> [] ->
  length items < fuel ->
  exists done,
    run pformat list_next self ∅ fs draw fuel items = Some (done, None)
    /\ in_reply_to <$> posted done
       = (fun t => Some (id t)) <$> omap (answerable self) items.
Proof.
  intros Hl Hll Hne Hfuel. unfold run. rewrite Hl.
  apply (run_loop_loaded pformat self ls draw items fuel 0 Hl Hll Hne Hfuel).
Qed.

(** X16: with an empty corpus the run ends with ValueError at the first
    record it would answer; nothing has been sent, and the records behind
    that one play no part. *)
Theorem run_stops_on_empty_corpus (pformat : Item -> string) (self : PySwizzle)
    (fs : string -> option string) (draw : nat -> nat) (fuel : nat)
    (before : list Item) (n : Item) (t : Tweet) :
  lyrics self = Some [] ->
  lyrics_lower self = Some [] ->
  (forall m, m ∈ before -> answerable self m = None) ->
  answerable self n = Some t ->
  length before < fuel ->
  exists done,
    posted done = []
    /\ forall behind,
         run pformat list_next self ∅ fs draw fuel (before ++ n :: behind)%list
         = Some (done, Some ValueError).
Proof.
  intros Hl Hll Hbefore Hn Hfuel. unfold run. rewrite Hl.
  generalize 0 as i. revert fuel Hfuel.
  induction before as [|m before IH]; intros fuel Hfuel i;
    (destruct fuel as [|fuel]; [cbn in Hfuel; lia|]).
  - destruct (run_body_answerable pformat self (draw i) n t Hn)
      as (Hbody & Hauthor & Hin).
    rewrite (handle_tweet_mentioned self (draw i) t Hauthor Hin) in Hbody.
    cbn zeta in Hbody. unfold choose_lyric in Hbody. rewrite Hll in Hbody.
    cbn in Hbody.
    eexists. split; [|intros behind; cbn [app run_loop list_next];
                      rewrite Hbody; reflexivity].
    reflexivity.
  - destruct (run_body_unanswerable pformat self (draw i) m) as [Hr Hp];
      [apply Hbefore, list_elem_of_here|].
    destruct (IH (fun x Hx => Hbefore x (list_elem_of_further _ _ _ Hx))
                fuel ltac:(cbn in Hfuel; lia) (S i)) as (more & Hmore & Hrun).
    destruct (run_body pformat self ∅ (draw i) m) as [first r] eqn:Ebody.
    cbn [fst snd] in Hr, Hp. subst r.
    exists (first ++ more)%list. split.
    + rewrite posted_app, Hp, Hmore. reflexivity.
    + intros behind. cbn [app run_loop list_next]. rewrite Ebody, Hrun.
      reflexivity.
Qed.

Lemma run_loop_bounded (pformat : Item -> string) (self : PySwizzle)
    (events : gmap string callback) (draw : nat -> nat) (depth fuel i : nat)
    (live : TwitterInterface) :
  calm depth (upcoming live) = true ->
  run_loop pformat (next_bounded depth) self events draw fuel i live
  = run_loop pformat __next__ self events draw fuel i live.
Proof.
  revert i live. induction fuel as [|fuel IH]; intros i live Hcalm;
    [reflexivity|].
  cbn [run_loop].
  change (next_bounded depth live)
    with (next_within depth (upcoming live) (iterator live)).
  change (__next__ live) with (next_on (upcoming live) (iterator live)).
  rewrite (next_within_fits depth _ _ (calm_need depth _ (iterator live) Hcalm)).
  destruct (next_on (upcoming live) (iterator live)) as [[n|e] live'] eqn:Enext;
    [|reflexivity].
  rewrite (IH (S i) live' (next_on_calm depth _ _ _ _ Enext Hcalm)).
  reflexivity.
Qed.

(** X17: when no burst of back-to-back hangups is deeper than the stack
    allows and the last connection ends by itself, a run over the live
    interface does what it does over the list of the records the
    connections deliver before their hangups.  When the first call of
    [__next__] meets a deeper burst, a run with lyrics in place ends with
    RecursionError before it has handled any record. *)
Theorem run_live_is_replay (pformat : Item -> string) (self : PySwizzle)
    (events : gmap string callback) (fs : string -> option string)
    (draw : nat -> nat) (depth fuel : nat) (live : TwitterInterface) :
  (calm depth (upcoming live) = true ->
   (delivered (upcoming live) (iterator live)).2 = StopIteration ->
   run pformat (next_bounded depth) self events fs draw fuel live
   = run pformat list_next self events fs draw fuel
       (delivered (upcoming live) (iterator live)).1)
  /\ (depth < need (upcoming live) (iterator live) ->
      lyrics self <> None ->
      run pformat (next_bounded depth) self events fs draw (S fuel) live
      = Some ([], Some RecursionError)).
Proof.
  split.
  - intros Hcalm Hend. unfold run.
    destruct (lyrics self);
      [rewrite run_loop_bounded by exact Hcalm; apply run_loop_live, Hend|].
    destruct (load_lyrics self fs "taylor.txt"); [|reflexivity].
    rewrite run_loop_bounded by exact Hcalm. apply run_loop_live, Hend.
  - intros Hdeep Hloaded. unfold run.
    destruct (lyrics self); [|contradiction]. cbn [run_loop].
    pose proof (next_within_overflow depth _ _ Hdeep) as Hover.
    unfold next_bounded.
    destruct (next_within depth (upcoming live) (iterator live)) as [r live'].
    cbn [fst] in Hover. subst r. reflexivity.
Qed.

Lemma run_posts_short_witness :
  (exists parent,
     in_reply_to (StatusesUpdate "@alice @bob shake it off" (Some 99%Z))
     = Some parent)
  /\ String.length
       (status_of (StatusesUpdate "@alice @bob shake it off" (Some 99%Z)))
     <= 140.
Proof.
  eapply (run_posts_short sample_pformat list_next fresh_bot
            (one_file "taylor.txt" trouble_file) (fun _ => 0) 5 [item_A]).
  - vm_compute. reflexivity.
  - apply list_elem_of_here.
Defined.

Lemma run_answers_mentions_witness :
  exists done,
    run sample_pformat list_next (bot_with trouble_corpus) ∅
      (one_file "taylor.txt" trouble_file) (fun _ => 0) 5
      [follow_item; item_A; Hangup; item_B]
    = Some (done, None)
    /\ in_reply_to <$> posted done
       = (fun t => Some (id t))
           <$> omap (answerable (bot_with trouble_corpus))
                 [follow_item; item_A; Hangup; item_B].
Proof.
  apply (run_answers_mentions sample_pformat (bot_with trouble_corpus)
           trouble_corpus (one_file "taylor.txt" trouble_file) (fun _ => 0) 5
           [follow_item; item_A; Hangup; item_B]);
    [reflexivity|reflexivity|discriminate|cbn; lia].
Defined.

Lemma run_stops_on_empty_corpus_witness :
  exists done,
    posted done = []
    /\ forall behind,
         run sample_pformat list_next (bot_with []) ∅
           (one_file "taylor.txt" "") (fun _ => 0) 2
           ([item_B] ++ item_A :: behind)%list
         = Some (done, Some ValueError).
Proof.
  apply (run_stops_on_empty_corpus sample_pformat (bot_with [])
           (one_file "taylor.txt" "") (fun _ => 0) 2 [item_B] item_A
           mention_tweet); [reflexivity|reflexivity| | |cbn; lia].
  - intros m H%list_elem_of_singleton. subst m. vm_compute. reflexivity.
  - vm_compute. reflexivity.
Defined.

Lemma run_live_is_replay_witness :
  run sample_pformat (next_bounded 2) fresh_bot ∅
    (one_file "taylor.txt" trouble_file) (fun _ => 0) 5 dropped_stream
  = run sample_pformat list_next fresh_bot ∅
      (one_file "taylor.txt" trouble_file) (fun _ => 0) 5 [item_A; item_B]
  /\ run sample_pformat (next_bounded 1) (bot_with trouble_corpus) ∅
       (one_file "taylor.txt" trouble_file) (fun _ => 0) 5 hangup_first
     = Some ([], Some RecursionError).
Proof.
  split.
  - destruct (run_live_is_replay sample_pformat fresh_bot ∅
                (one_file "taylor.txt" trouble_file) (fun _ => 0) 2 5
                dropped_stream) as [Hcalm _].
    apply Hcalm; reflexivity.
  - destruct (run_live_is_replay sample_pformat (bot_with trouble_corpus) ∅
                (one_file "taylor.txt" trouble_file) (fun _ => 0) 1 4
                hangup_first) as [_ Hdeep].
    apply Hdeep; [vm_compute; lia|discriminate].
Defined.

(** ** Words of a tweet *)

Lemma split_go_app_space (a b cur : string) (c : ascii) :
  Py.isspace c = true ->
  Py.split_go cur (a +:+ String c b)
  = (Py.split_go cur a ++ Py.split_go "" b)%list.
Proof.
  intros Hc. revert cur. induction a as [|d a IH]; intros cur.
  - change ("" +:+ String c b) with (String c b).
    cbn [Py.split_go]. rewrite Hc. destruct cur; reflexivity.
  - rewrite str_app_cons. cbn [Py.split_go].
    destruct (Py.isspace d); [|apply IH].
    destruct cur; [apply IH|]. rewrite IH. reflexivity.
Qed.

Lemma lower_app (a b : string) :
  Py.lower (a +:+ b) = Py.lower a +:+ Py.lower b.
Proof.
  induction a as [|d a IH]; [reflexivity|].
  rewrite str_app_cons. cbn [Py.lower]. rewrite IH. reflexivity.
Qed.

Lemma pieces_of_app (a b : string) :
  pieces_of (a +:+ " " +:+ b) = pieces_of a ∪ pieces_of b.
Proof.
  unfold pieces_of, Py.split. rewrite lower_app.
  change (Py.lower (" " +:+ b)) with (String " " (Py.lower b)).
  rewrite split_go_app_space by reflexivity.
  apply list_to_set_app_L.
Qed.

(** X18: the order of the parts of a tweet and the repetition of a part do
    not change what is chosen. *)
Theorem choose_lyric_word_set (self : PySwizzle) (k : nat) (a b : string) :
  choose_lyric self k (a +:+ " " +:+ b) = choose_lyric self k (b +:+ " " +:+ a)
  /\ choose_lyric self k (a +:+ " " +:+ a) = choose_lyric self k a.
Proof.
  assert (Hswap : pieces_of (a +:+ " " +:+ b) = pieces_of (b +:+ " " +:+ a)).
  { rewrite !pieces_of_app. apply union_comm_L. }
  assert (Hdup : pieces_of (a +:+ " " +:+ a) = pieces_of a).
  { rewrite pieces_of_app. apply union_idemp_L. }
  unfold choose_lyric. rewrite Hswap, Hdup. split; reflexivity.
Qed.
